(** * audio.whisper: the R binding [rcpp_whisper.cpp] of the whisper engine

    A shallow embedding of [src/rcpp_whisper.cpp] and the properties of its
    specification.

    Conventions of the embedding.
    - C++ [int64_t] and [int] values are [Z]; every place where the source
      computes in a fixed width carries its wrap-around ([int64], [int32]),
      and the C++ [/] on integers is [Z.quot] (truncation towards zero).
    - [float] and [double] values (PCM samples, channel energies, token
      probabilities) are exact rationals [Q]: rounding is idealised. The
      conversions of 16-bit PCM to [float] (a division by a power of two)
      are exact in both readings. Where the rounding decides the outcome
      (the energy comparison of the callback) the module [Double] gives the
      same code in binary64 arithmetic, on the primitive floats of Rocq.
    - The inference engine ([whisper.h]) and the WAV reader ([dr_wav.h]) are
      not part of the binding. They appear as the fields of a record
      [engine], and the result set the engine keeps in its context is the
      record [whisper_context].
    - [Rcpp::stop], [Rcpp::warning], [Rprintf] and [Rcpp::Rcout] are recorded
      with the format string and the arguments the source passes to them, in
      a trace of [event]s; [Rcpp::stop] ends the call. [render_stop] gives
      the message a stop is rendered to. *)

From Stdlib Require Import ZArith QArith Qabs Qround List String Ascii Bool Lia Lqa.
From Stdlib Require PrimFloat FloatOps SpecFloat.
Import ListNotations.

Local Open Scope string_scope.
Local Open Scope Z_scope.

(** ** Fixed-width integers *)

Module CInt.

(** Two's complement value of [x] seen as a signed [w]-bit integer. *)
Definition wrap (w : Z) (x : Z) : Z :=
  (x + 2 ^ (w - 1)) mod 2 ^ w - 2 ^ (w - 1).

Definition int64 : Z -> Z := wrap 64.
Definition int32 : Z -> Z := wrap 32.

Definition INT_MIN : Z := - 2 ^ 31.
Definition INT_MAX : Z := 2 ^ 31 - 1.

End CInt.
Import CInt.

(** ** [snprintf] with the conversions the source uses *)

Module Printf.

Definition digit (d : Z) : ascii := ascii_of_nat (48 + Z.to_nat d).

(** Decimal digits of a non-negative number, most significant first. An
    [int] has at most ten of them, which bounds the recursion. *)
Fixpoint dec_digits (fuel : nat) (n : Z) : string :=
  match fuel with
  | O => ""
  | S fuel' =>
      if n <? 10 then String (digit n) ""
      else dec_digits fuel' (n / 10) ++ String (digit (n mod 10)) ""
  end.

Fixpoint zeros (k : nat) : string :=
  match k with
  | O => ""
  | S k' => String "0" (zeros k')
  end.

(** ["%0<width>d"]: the sign first, then zeros up to the field width, then
    the digits; a number wider than the field is printed in full. *)
Definition fmt_0d (width : nat) (n : Z) : string :=
  if n <? 0 then
    let ds := dec_digits 10 (- n) in
    "-" ++ zeros (width - 1 - String.length ds) ++ ds
  else
    let ds := dec_digits 10 n in
    zeros (width - String.length ds) ++ ds.

Fixpoint take (k : nat) (s : string) : string :=
  match k, s with
  | S k', String c s' => String c (take k' s')
  | _, _ => ""
  end.

(** [snprintf(buf, size, ...)] keeps [size - 1] characters. *)
Definition snprintf (size : nat) (pieces : list string) : string :=
  take (size - 1) (String.concat "" pieces).

End Printf.
Import Printf.

(** ** [to_timestamp] (lines 25-38) *)

Definition to_timestamp (t : Z) (comma : bool) : string :=
  let msec := int64 (t * 10) in
  let hr := Z.quot msec (1000 * 60 * 60) in
  let msec := int64 (msec - hr * (1000 * 60 * 60)) in
  let min := Z.quot msec (1000 * 60) in
  let msec := int64 (msec - min * (1000 * 60)) in
  let sec := Z.quot msec 1000 in
  let msec := int64 (msec - sec * 1000) in
  snprintf 32
    [ fmt_0d 2 (int32 hr); ":"; fmt_0d 2 (int32 min); ":"; fmt_0d 2 (int32 sec);
      (if comma then "," else "."); fmt_0d 3 (int32 msec) ].

(** ** Sample indices (lines 40-42) *)

(** Modelled from the spec: the macro [WHISPER_SAMPLE_RATE] of [whisper.h],
    the engine's required rate of 16 kHz. *)
Definition WHISPER_SAMPLE_RATE : Z := 16000.

(** [n_samples] arrives as an [int64_t] and is narrowed to the [int]
    parameter; the quotient is narrowed by the [(int)] cast. *)
Definition timestamp_to_sample (t : Z) (n_samples : Z) : Z :=
  Z.max 0
    (Z.min (int32 (int32 n_samples - 1))
           (int32 (Z.quot (int64 (t * WHISPER_SAMPLE_RATE)) 100))).

(** ** Terminal colours (lines 16-21) *)

Definition ESC : string := String (ascii_of_nat 27) "".
Definition NL : string := String (ascii_of_nat 10) "".
Definition COLOR_RESET : string := ESC ++ "[0m".

Definition k_colors : list string :=
  [ ESC ++ "[38;5;196m"; ESC ++ "[38;5;202m"; ESC ++ "[38;5;208m";
    ESC ++ "[38;5;214m"; ESC ++ "[38;5;220m"; ESC ++ "[38;5;226m";
    ESC ++ "[38;5;190m"; ESC ++ "[38;5;154m"; ESC ++ "[38;5;118m";
    ESC ++ "[38;5;82m" ].

(** The [(int)] cast of a floating value: truncation towards zero. (Outside
    the range of [int] the cast is undefined in C++; the properties below
    stay inside it.) *)
Definition Qtrunc (q : Q) : Z := Z.quot (Qnum q) (Zpos (Qden q)).

Definition k_colors_size : Z := Z.of_nat (List.length k_colors).

(** Lines 116 and 170:
    [std::max(0, std::min((int) k_colors.size(),
                          (int) (std::pow(p, 3)*float(k_colors.size()))))]. *)
Definition color_index (p : Q) : Z :=
  Z.max 0 (Z.min k_colors_size (Qtrunc (Qpower p 3 * inject_Z k_colors_size)%Q)).

(** [k_colors[col]]: [None] is an access outside the vector. *)
Definition k_colors_at (col : Z) : option string :=
  if col <? 0 then None else nth_error k_colors (Z.to_nat col).

(** ** The command-line parameters (lines 55-81) *)

Module Params.

Record whisper_params := mk {
  n_threads : Z;
  n_processors : Z;
  offset_t_ms : Z;
  offset_n : Z;
  duration_ms : Z;
  max_context : Z;
  max_len : Z;
  word_thold : Q;
  speed_up : bool;
  translate : bool;
  diarize : bool;
  output_txt : bool;
  output_vtt : bool;
  output_srt : bool;
  output_wts : bool;
  print_special : bool;
  print_colors : bool;
  no_timestamps : bool;
  language : string;
  model : string;
  fname_inp : list string
}.

(** The member initialisers of the struct. *)
Definition default (hardware_concurrency : Z) : whisper_params :=
  {| n_threads := Z.min 4 (int32 hardware_concurrency);
     n_processors := 1;
     offset_t_ms := 0;
     offset_n := 0;
     duration_ms := 0;
     max_context := -1;
     max_len := 0;
     word_thold := 1 # 100;
     speed_up := false;
     translate := false;
     diarize := false;
     output_txt := false;
     output_vtt := false;
     output_srt := false;
     output_wts := false;
     print_special := false;
     print_colors := false;
     no_timestamps := false;
     language := "en";
     model := "models/ggml-base.en.bin";
     fname_inp := [] |}.

(** [params.language = l; params.translate = t;] *)
Definition with_language_translate (p : whisper_params) (l : string) (t : bool)
  : whisper_params :=
  {| n_threads := n_threads p;
     n_processors := n_processors p;
     offset_t_ms := offset_t_ms p;
     offset_n := offset_n p;
     duration_ms := duration_ms p;
     max_context := max_context p;
     max_len := max_len p;
     word_thold := word_thold p;
     speed_up := speed_up p;
     translate := t;
     diarize := diarize p;
     output_txt := output_txt p;
     output_vtt := output_vtt p;
     output_srt := output_srt p;
     output_wts := output_wts p;
     print_special := print_special p;
     print_colors := print_colors p;
     no_timestamps := no_timestamps p;
     language := l;
     model := model p;
     fname_inp := fname_inp p |}.

End Params.
Abbreviation whisper_params := Params.whisper_params.

(** ** What the engine keeps after a run *)

Module Token.
(** [whisper_token_data], with the text the vocabulary gives the token. *)
Record whisper_token_data := mk {
  id : Z;
  p : Q;
  t0 : Z;
  t1 : Z;
  text : string
}.
Definition none : whisper_token_data :=
  {| id := 0; p := 0; t0 := 0; t1 := 0; text := "" |}.
End Token.
Abbreviation whisper_token_data := Token.whisper_token_data.

Module Segment.
Record segment := mk {
  t0 : Z;
  t1 : Z;
  text : string;
  tokens : list whisper_token_data
}.
Definition none : segment := {| t0 := 0; t1 := 0; text := ""; tokens := [] |}.
End Segment.
Abbreviation segment := Segment.segment.

Module Ctx.
Record whisper_context := mk {
  is_multilingual : Z;
  token_eot : Z;
  result_all : list segment
}.
End Ctx.
Abbreviation whisper_context := Ctx.whisper_context.

(** [v[i]] for an [int] index; outside the vector the engine's accessors are
    undefined, the model answers with a fixed element. *)
Definition at_index {A : Type} (l : list A) (i : Z) (d : A) : A :=
  if i <? 0 then d else nth (Z.to_nat i) l d.

(** The result accessors of [whisper.h]. *)
Definition whisper_is_multilingual (ctx : whisper_context) : Z := Ctx.is_multilingual ctx.
Definition whisper_token_eot (ctx : whisper_context) : Z := Ctx.token_eot ctx.
Definition whisper_full_n_segments (ctx : whisper_context) : Z :=
  Z.of_nat (List.length (Ctx.result_all ctx)).
Definition get_segment (ctx : whisper_context) (i : Z) : segment :=
  at_index (Ctx.result_all ctx) i Segment.none.
Definition whisper_full_get_segment_t0 ctx i : Z := Segment.t0 (get_segment ctx i).
Definition whisper_full_get_segment_t1 ctx i : Z := Segment.t1 (get_segment ctx i).
Definition whisper_full_get_segment_text ctx i : string := Segment.text (get_segment ctx i).
Definition whisper_full_n_tokens ctx i : Z :=
  Z.of_nat (List.length (Segment.tokens (get_segment ctx i))).
Definition whisper_full_get_token_data ctx i j : whisper_token_data :=
  at_index (Segment.tokens (get_segment ctx i)) j Token.none.
Definition whisper_full_get_token_id ctx i j : Z := Token.id (whisper_full_get_token_data ctx i j).
Definition whisper_full_get_token_text ctx i j : string :=
  Token.text (whisper_full_get_token_data ctx i j).
Definition whisper_full_get_token_p ctx i j : Q := Token.p (whisper_full_get_token_data ctx i j).

(** The values of [for (int i = lo; i < hi; i++)]. *)
Definition range (lo hi : Z) : list Z :=
  map (fun k => lo + Z.of_nat k) (seq 0 (Z.to_nat (hi - lo))).

(** ** The configuration record of the engine *)

(** [whisper_print_user_data] (lines 84-88). The two pointers refer to the
    locals [params] and [pcmf32s] of [whisper_encode], which no longer change
    once the record is built; the model holds their values. *)
Record whisper_print_user_data := {
  ud_params : whisper_params;
  ud_pcmf32s : list (list Q)
}.

Module WParams.
(** The fields of [whisper_full_params] the binding assigns.
    [new_segment_callback] is [Some user_data] when the binding installed
    [whisper_print_segment_callback] with that user data, and [None] when
    the field is left as the engine's defaults have it (no callback of the
    binding); likewise for [encoder_begin_callback]. *)
Record whisper_full_params := mk {
  print_realtime : bool;
  print_progress : bool;
  print_timestamps : bool;
  print_special : bool;
  translate : bool;
  language : string;
  n_threads : Z;
  n_max_text_ctx : Z;
  offset_ms : Z;
  duration_ms : Z;
  token_timestamps : bool;
  thold_pt : Q;
  max_len : Z;
  speed_up : bool;
  new_segment_callback : option whisper_print_user_data;
  encoder_begin_callback : option (bool -> bool);
  encoder_begin_callback_user_data : bool
}.
End WParams.
Abbreviation whisper_full_params := WParams.whisper_full_params.

Module Defaults.
(** What [whisper_full_default_params(WHISPER_SAMPLING_GREEDY)] puts in the
    fields that the binding reads, or assigns only later. *)
Record t := mk {
  n_max_text_ctx : Z;
  thold_pt : Q;
  max_len : Z;
  speed_up : bool
}.
End Defaults.

(** ** Effects: what the call prints, and how it stops *)

Inductive event : Type :=
| Rprintf (fmt : string) (args : list string)
| Rcout_processing (fname : string) (n_samples : Z) (lang : string)
                   (translate : bool) (timestamps : bool)
| Rwarning (msg : string)
| CheckUserInterrupt
| FullParallel (wparams : whisper_full_params) (samples : list Q)
               (n_processors : Z).

(** [Rcpp::stop(fmt, args...)]. *)
Inductive error : Type :=
| Stop (fmt : string) (args : list string).

(** A computation leaves a trace and ends in an error or a value. *)
Definition M (A : Type) : Type := (list event * (error + A))%type.

Definition ret {A} (a : A) : M A := ([], inr a).

Definition bind {A B} (c : M A) (k : A -> M B) : M B :=
  match c with
  | (tr, inl e) => (tr, inl e)
  | (tr, inr a) => let (tr', r) := k a in ((tr ++ tr')%list, r)
  end.

Definition emit (evs : list event) : M unit := (evs, inr tt).
Definition stop {A} (fmt : string) (args : list string) : M A :=
  ([], inl (Stop fmt args)).

Declare Scope whisper_scope.
Delimit Scope whisper_scope with whisper.
Notation "x <- c ;; k" := (bind c (fun x => k))
  (at level 61, c at next level, right associativity) : whisper_scope.
Notation "c ;; k" := (bind c (fun _ => k))
  (at level 61, right associativity) : whisper_scope.
Local Open Scope whisper_scope.

Definition trace_of {A} (c : M A) : list event := fst c.
Definition result_of {A} (c : M A) : error + A := snd c.

Definition is_FullParallel (e : event) : bool :=
  match e with FullParallel _ _ _ => true | _ => false end.

(** The decode entry point was called during the computation. *)
Definition engine_invoked {A} (c : M A) : bool :=
  existsb is_FullParallel (trace_of c).

(** ** The segment callback (lines 90-182) *)

Definition Qgtb (a b : Q) : bool := negb (Qle_bool a b).

(** [pcmf32s[c][j]]. *)
Definition sample (pcmf32s : list (list Q)) (c : nat) (j : Z) : Q :=
  at_index (nth c pcmf32s []) j 0%Q.

(** Lines 130-155: the speaker label of a segment. The literal [1.1] is the
    rational 11/10. *)
Definition segment_speaker (params : whisper_params) (pcmf32s : list (list Q))
  (t0 t1 : Z) : string :=
  if Params.diarize params && (List.length pcmf32s =? 2)%nat then
    let n_samples := Z.of_nat (List.length (nth 0%nat pcmf32s [])) in
    let is0 := timestamp_to_sample t0 n_samples in
    let is1 := timestamp_to_sample t1 n_samples in
    let '(energy0, energy1) :=
      fold_left
        (fun '(energy0, energy1) j =>
           ((energy0 + Qabs (sample pcmf32s 0 j))%Q,
            (energy1 + Qabs (sample pcmf32s 1 j))%Q))
        (range is0 is1) (0%Q, 0%Q) in
    if Qgtb energy0 ((11 # 10) * energy1)%Q then "(speaker 0)"
    else if Qgtb energy1 ((11 # 10) * energy0)%Q then "(speaker 1)"
    else "(speaker ?)"
  else "".

Definition color_text (col : Z) : string :=
  match k_colors_at col with
  | Some c => c
  | None => ""   (* reading past the vector: undefined *)
  end.

(** Lines 105-119 and 159-173: the coloured tokens of segment [i]; [prefix]
    are the arguments printed before the colour. *)
Definition print_colored_tokens (params : whisper_params) (ctx : whisper_context)
  (i : Z) (fmt : string) (prefix : list string) : list event :=
  flat_map
    (fun j =>
       if negb (Params.print_special params)
          && (whisper_token_eot ctx <=? whisper_full_get_token_id ctx i j)
       then []
       else
         let text := whisper_full_get_token_text ctx i j in
         let p := whisper_full_get_token_p ctx i j in
         let col := color_index p in
         [Rprintf fmt (prefix ++ [color_text col; text; COLOR_RESET])%list])
    (range 0 (whisper_full_n_tokens ctx i)).

Definition whisper_print_segment_callback (ctx : whisper_context) (n_new : Z)
  (user_data : whisper_print_user_data) : list event :=
  let params := ud_params user_data in
  let pcmf32s := ud_pcmf32s user_data in
  let n_segments := whisper_full_n_segments ctx in
  let s0 := int32 (n_segments - n_new) in
  ((if s0 =? 0 then [Rprintf NL []] else []) ++
   flat_map
     (fun i =>
        if Params.no_timestamps params then
          ((if Params.print_colors params then
              print_colored_tokens params ctx i "%s%s%s" []
            else
              [Rprintf "%s" [whisper_full_get_segment_text ctx i]]) ++
           [CheckUserInterrupt])%list
        else
          let t0 := whisper_full_get_segment_t0 ctx i in
          let t1 := whisper_full_get_segment_t1 ctx i in
          let speaker := segment_speaker params pcmf32s t0 t1 in
          if Params.print_colors params then
            (Rprintf "[%s --> %s]  " [to_timestamp t0 false; to_timestamp t1 false]
             :: print_colored_tokens params ctx i "%s%s%s%s" [speaker]
             ++ [Rprintf NL []])%list
          else
            [Rprintf ("[%s --> %s]  %s%s" ++ NL)
               [to_timestamp t0 false; to_timestamp t1 false; speaker;
                whisper_full_get_segment_text ctx i]])
     (range s0 n_segments))%list.

(** ** The WAV reader and the engine, as the binding sees them *)

Module Wav.
(** What [drwav_init_file] learns from the header, and the interleaved
    16-bit samples [drwav_read_pcm_frames_s16] delivers. *)
Record drwav := mk {
  channels : Z;
  sampleRate : Z;
  bitsPerSample : Z;
  totalPCMFrameCount : Z;
  frames : list Z
}.
End Wav.
Abbreviation drwav := Wav.drwav.

(** One run of [whisper_full_parallel]: the new-segment notifications it makes
    (the context at that moment and [n_new]), its return code and the context
    it leaves. *)
Record engine_run := {
  new_segments : list (whisper_context * Z);
  ret_code : Z;
  ctx_after : whisper_context
}.

Record engine := {
  hardware_concurrency : Z;
  whisper_lang_id : string -> Z;
  drwav_init_file : string -> option drwav;
  whisper_full_default_params : Defaults.t;
  whisper_full_parallel :
    whisper_context -> whisper_full_params -> list Q -> Z -> engine_run
}.

(** ** Reading the audio (lines 244-298) *)

Definition msg_open : string := "Failed to open the file as WAV file: ".
Definition msg_channels : string := "WAV file must be mono or stereo: ".
Definition msg_diarize : string :=
  "WAV file must be stereo for diarization and timestamps have to be enabled: ".
Definition msg_rate : string := "WAV file must be 16 kHz: ".
Definition msg_bits : string := "WAV file must be 16 bit: ".

(** [pcm16.resize(n*channels)] followed by [drwav_read_pcm_frames_s16]. *)
Definition read_pcm16 (wav : drwav) (n : Z) : list Z :=
  let size := Z.to_nat (n * Wav.channels wav) in
  firstn size (Wav.frames wav ++ repeat 0 size)%list.

Definition load_wav (eng : engine) (params : whisper_params) (fname_inp : string)
  : M (list Q * list (list Q)) :=
  match drwav_init_file eng fname_inp with
  | None => stop msg_open [fname_inp]
  | Some wav =>
      if negb (Wav.channels wav =? 1) && negb (Wav.channels wav =? 2) then
        stop msg_channels [fname_inp]
      else if Params.diarize params && negb (Wav.channels wav =? 2)
              && Bool.eqb (Params.no_timestamps params) false then
        stop msg_diarize [fname_inp]
      else if negb (Wav.sampleRate wav =? WHISPER_SAMPLE_RATE) then
        stop msg_rate [fname_inp]
      else if negb (Wav.bitsPerSample wav =? 16) then
        stop msg_bits [fname_inp]
      else
        (* [wav_data] is empty, so [n] is the frame count of the header *)
        let n := Wav.totalPCMFrameCount wav in
        let pcm16 := read_pcm16 wav n in
        let pcmf32 :=
          if Wav.channels wav =? 1 then
            map (fun i => Qmake (at_index pcm16 i 0) 32768) (range 0 n)
          else
            map (fun i => Qmake (at_index pcm16 (2 * i) 0
                                 + at_index pcm16 (2 * i + 1) 0) 65536)
                (range 0 n) in
        let pcmf32s :=
          if Params.diarize params then
            [ map (fun i => Qmake (at_index pcm16 (2 * i) 0) 32768) (range 0 n);
              map (fun i => Qmake (at_index pcm16 (2 * i + 1) 0) 32768) (range 0 n) ]
          else [] in
        ret (pcmf32, pcmf32s)
  end.

(** ** Language fallback (lines 308-315) *)

Definition msg_not_multilingual : string :=
  "WARNING: model is not multilingual, ignoring language and translation options".

Definition language_fallback (ctx : whisper_context) (params : whisper_params)
  : M whisper_params :=
  if whisper_is_multilingual ctx =? 0 then
    if negb (String.eqb (Params.language params) "en") || Params.translate params then
      let params := Params.with_language_translate params "en" false in
      emit [Rwarning msg_not_multilingual] ;;
      ret params
    else ret params
  else ret params.

(** ** Building the engine configuration (lines 321-360) *)

Definition inference_params (defaults : Defaults.t) (params : whisper_params)
  (pcmf32s : list (list Q)) (token_timestamps trace : bool) : whisper_full_params :=
  (* lines 323-334 *)
  let wparams :=
    {| WParams.print_realtime := trace;
       WParams.print_progress := false;
       WParams.print_timestamps := negb (Params.no_timestamps params);
       WParams.print_special := Params.print_special params;
       WParams.translate := Params.translate params;
       WParams.language := Params.language params;
       WParams.n_threads := Params.n_threads params;
       WParams.n_max_text_ctx :=
         if 0 <=? Params.max_context params then Params.max_context params
         else Defaults.n_max_text_ctx defaults;
       WParams.offset_ms := Params.offset_t_ms params;
       WParams.duration_ms := Params.duration_ms params;
       WParams.token_timestamps :=
         Params.output_wts params || (0 <? Params.max_len params);
       WParams.thold_pt := Defaults.thold_pt defaults;
       WParams.max_len := Defaults.max_len defaults;
       WParams.speed_up := Defaults.speed_up defaults;
       WParams.new_segment_callback := None;
       WParams.encoder_begin_callback := None;
       WParams.encoder_begin_callback_user_data := false |} in
  (* lines 335-339 *)
  let wparams :=
    {| WParams.print_realtime := WParams.print_realtime wparams;
       WParams.print_progress := WParams.print_progress wparams;
       WParams.print_timestamps := WParams.print_timestamps wparams;
       WParams.print_special := WParams.print_special wparams;
       WParams.translate := WParams.translate wparams;
       WParams.language := WParams.language wparams;
       WParams.n_threads := WParams.n_threads wparams;
       WParams.n_max_text_ctx := WParams.n_max_text_ctx wparams;
       WParams.offset_ms := WParams.offset_ms wparams;
       WParams.duration_ms := WParams.duration_ms wparams;
       WParams.token_timestamps := token_timestamps;
       WParams.thold_pt := Params.word_thold params;
       WParams.max_len :=
         if Params.output_wts params && (Params.max_len params =? 0) then 60
         else Params.max_len params;
       WParams.speed_up := Params.speed_up params;
       WParams.new_segment_callback := WParams.new_segment_callback wparams;
       WParams.encoder_begin_callback := WParams.encoder_begin_callback wparams;
       WParams.encoder_begin_callback_user_data :=
         WParams.encoder_begin_callback_user_data wparams |} in
  (* lines 341-360 *)
  let user_data := {| ud_params := params; ud_pcmf32s := pcmf32s |} in
  let is_aborted := false in
  {| WParams.print_realtime := WParams.print_realtime wparams;
     WParams.print_progress := WParams.print_progress wparams;
     WParams.print_timestamps := WParams.print_timestamps wparams;
     WParams.print_special := WParams.print_special wparams;
     WParams.translate := WParams.translate wparams;
     WParams.language := WParams.language wparams;
     WParams.n_threads := WParams.n_threads wparams;
     WParams.n_max_text_ctx := WParams.n_max_text_ctx wparams;
     WParams.offset_ms := WParams.offset_ms wparams;
     WParams.duration_ms := WParams.duration_ms wparams;
     WParams.token_timestamps := WParams.token_timestamps wparams;
     WParams.thold_pt := WParams.thold_pt wparams;
     WParams.max_len := WParams.max_len wparams;
     WParams.speed_up := WParams.speed_up wparams;
     WParams.new_segment_callback :=
       if negb (WParams.print_realtime wparams) then Some user_data
       else WParams.new_segment_callback wparams;
     WParams.encoder_begin_callback := Some (fun is_aborted => negb is_aborted);
     WParams.encoder_begin_callback_user_data := is_aborted |}.

(** ** One input file (the body of the loop, lines 239-366) *)

(** What the segment callback prints during a run, when it is installed. *)
Definition callback_output (wparams : whisper_full_params) (run : engine_run)
  : list event :=
  match WParams.new_segment_callback wparams with
  | Some user_data =>
      flat_map (fun '(ctx, n_new) => whisper_print_segment_callback ctx n_new user_data)
               (new_segments run)
  | None => []
  end.

Definition process_file (eng : engine) (token_timestamps trace : bool)
  (fname_inp : string) (st : whisper_params * whisper_context)
  : M (whisper_params * whisper_context) :=
  let '(params, ctx) := st in
  pcm <- load_wav eng params fname_inp ;;
  let '(pcmf32, pcmf32s) := pcm in
  params <- language_fallback ctx params ;;
  emit [Rcout_processing fname_inp (int32 (Z.of_nat (List.length pcmf32)))
          (Params.language params) (Params.translate params) token_timestamps] ;;
  let wparams :=
    inference_params (whisper_full_default_params eng) params pcmf32s
                     token_timestamps trace in
  let run := whisper_full_parallel eng ctx wparams pcmf32 (Params.n_processors params) in
  emit (FullParallel wparams pcmf32 (Params.n_processors params)
        :: callback_output wparams run) ;;
  if negb (ret_code run =? 0) then stop "failed to process audio" []
  else ret (params, ctx_after run).

Fixpoint for_each_file (eng : engine) (token_timestamps trace : bool)
  (fnames : list string) (st : whisper_params * whisper_context)
  : M (whisper_params * whisper_context) :=
  match fnames with
  | [] => ret st
  | fname_inp :: rest =>
      st' <- process_file eng token_timestamps trace fname_inp st ;;
      for_each_file eng token_timestamps trace rest st'
  end.

(** ** The returned tables (lines 368-444) *)

Module TokensFrame.
(** The [tokens] data frame; the two timestamp columns exist only when
    token timestamps were asked for. *)
Record t := mk {
  segment : list Z;
  token : list string;
  token_prob : list Q;
  token_from : option (list string);
  token_to : option (list string)
}.
End TokensFrame.

Module DataFrame.
Record t := mk {
  segment : list Z;
  from : list string;
  to : list string;
  text : list string
}.
End DataFrame.

Module ParamsList.
Record t := mk {
  audio : string;
  language : string;
  offset : Z;
  duration : Z;
  translate : bool;
  token_timestamps : bool;
  word_threshold : Q
}.
End ParamsList.

Module Output.
Record t := mk {
  n_segments : Z;
  data : DataFrame.t;
  tokens : TokensFrame.t;
  params : ParamsList.t
}.
End Output.

(** The vectors the token loop appends to. *)
Record token_vectors := {
  token_segment_nr : list Z;
  token_segment_text : list string;
  token_segment_probability : list Q;
  token_segment_from : list string;
  token_segment_to : list string
}.

Definition no_tokens : token_vectors :=
  {| token_segment_nr := []; token_segment_text := [];
     token_segment_probability := []; token_segment_from := [];
     token_segment_to := [] |}.

(** The body of the token loop for token [j] of segment [i] (lines 389-407). *)
Definition collect_token (ctx : whisper_context) (print_special token_timestamps : bool)
  (i : Z) (v : token_vectors) (j : Z) : token_vectors :=
  if Bool.eqb print_special false
     && (whisper_token_eot ctx <=? whisper_full_get_token_id ctx i j)
  then v (* continue *)
  else
    let text := whisper_full_get_token_text ctx i j in
    let p := whisper_full_get_token_p ctx i j in
    let token := whisper_full_get_token_data ctx i j in
    {| token_segment_nr := (token_segment_nr v ++ [i + 1])%list;
       token_segment_text := (token_segment_text v ++ [text])%list;
       token_segment_probability := (token_segment_probability v ++ [p])%list;
       token_segment_from :=
         if token_timestamps
         then (token_segment_from v ++ [to_timestamp (Token.t0 token) false])%list
         else token_segment_from v;
       token_segment_to :=
         if token_timestamps
         then (token_segment_to v ++ [to_timestamp (Token.t1 token) false])%list
         else token_segment_to v |}.

(** The vectors of the segment table. [transcriptions*] are allocated with
    [n_segments] entries and assigned by index. *)
Record segment_vectors := {
  segment_nr : list Z;
  transcriptions : list string;
  transcriptions_from : list string;
  transcriptions_to : list string
}.

Fixpoint assign {A : Type} (l : list A) (i : nat) (a : A) : list A :=
  match l, i with
  | [], _ => []
  | _ :: l', O => a :: l'
  | x :: l', S i' => x :: assign l' i' a
  end.

(** Lines 380-386: what one turn of the segment loop does to the vectors of
    the segment table. *)
Definition record_segment (ctx : whisper_context) (s : segment_vectors) (i : Z)
  : segment_vectors :=
  let t0 := whisper_full_get_segment_t0 ctx i in
  let t1 := whisper_full_get_segment_t1 ctx i in
  {| segment_nr := (segment_nr s ++ [i + 1])%list;
     transcriptions :=
       assign (transcriptions s) (Z.to_nat i) (whisper_full_get_segment_text ctx i);
     transcriptions_from :=
       assign (transcriptions_from s) (Z.to_nat i) (to_timestamp t0 false);
     transcriptions_to :=
       assign (transcriptions_to s) (Z.to_nat i) (to_timestamp t1 false) |}.

(** One turn of the segment loop (lines 379-409): the segment's row, then
    its tokens. *)
Definition collect_segment (ctx : whisper_context) (print_special token_timestamps : bool)
  (acc : segment_vectors * token_vectors) (i : Z) : segment_vectors * token_vectors :=
  let '(s, v) := acc in
  let s := record_segment ctx s i in
  let v :=
    fold_left (collect_token ctx print_special token_timestamps i)
              (range 0 (whisper_full_n_tokens ctx i)) v in
  (s, v).

Definition collect (ctx : whisper_context) (print_special token_timestamps : bool)
  : segment_vectors * token_vectors :=
  let n_segments := whisper_full_n_segments ctx in
  let blank := repeat "" (Z.to_nat n_segments) in
  fold_left (collect_segment ctx print_special token_timestamps)
            (range 0 n_segments)
            ({| segment_nr := []; transcriptions := blank;
                transcriptions_from := blank; transcriptions_to := blank |},
             no_tokens).

Definition tokens_frame (v : token_vectors) (token_timestamps : bool) : TokensFrame.t :=
  if token_timestamps then
    {| TokensFrame.segment := token_segment_nr v;
       TokensFrame.token := token_segment_text v;
       TokensFrame.token_prob := token_segment_probability v;
       TokensFrame.token_from := Some (token_segment_from v);
       TokensFrame.token_to := Some (token_segment_to v) |}
  else
    {| TokensFrame.segment := token_segment_nr v;
       TokensFrame.token := token_segment_text v;
       TokensFrame.token_prob := token_segment_probability v;
       TokensFrame.token_from := None;
       TokensFrame.token_to := None |}.

Definition assemble (ctx : whisper_context) (params : whisper_params)
  (path : string) (token_timestamps : bool) (duration offset : Z) : Output.t :=
  let '(s, v) := collect ctx (Params.print_special params) token_timestamps in
  {| Output.n_segments := whisper_full_n_segments ctx;
     Output.data :=
       {| DataFrame.segment := segment_nr s;
          DataFrame.from := transcriptions_from s;
          DataFrame.to := transcriptions_to s;
          DataFrame.text := transcriptions s |};
     Output.tokens := tokens_frame v token_timestamps;
     Output.params :=
       {| ParamsList.audio := path;
          ParamsList.language := Params.language params;
          ParamsList.offset := offset;
          ParamsList.duration := duration;
          ParamsList.translate := Params.translate params;
          ParamsList.token_timestamps := token_timestamps;
          ParamsList.word_threshold := Params.word_thold params |} |}.

(** ** [whisper_encode] (lines 209-445) *)

(** The local [params] after lines 212-221. *)
Definition encode_params (eng : engine) (path language : string)
  (translate print_special : bool) (duration offset n_threads n_processors : Z)
  : whisper_params :=
  let params := Params.default (hardware_concurrency eng) in
  {| Params.n_threads := n_threads;
     Params.n_processors := n_processors;
     Params.offset_t_ms := offset;
     Params.offset_n := Params.offset_n params;
     Params.duration_ms := duration;
     Params.max_context := Params.max_context params;
     Params.max_len := Params.max_len params;
     Params.word_thold := Params.word_thold params;
     Params.speed_up := Params.speed_up params;
     Params.translate := translate;
     Params.diarize := Params.diarize params;
     Params.output_txt := Params.output_txt params;
     Params.output_vtt := Params.output_vtt params;
     Params.output_srt := Params.output_srt params;
     Params.output_wts := Params.output_wts params;
     Params.print_special := print_special;
     Params.print_colors := Params.print_colors params;
     Params.no_timestamps := Params.no_timestamps params;
     Params.language := language;
     Params.model := Params.model params;
     Params.fname_inp := (Params.fname_inp params ++ [path])%list |}.

(** The model handle is the engine context behind the [XPtr]; the engine
    changes it, so the call returns it next to the R list. *)
Definition whisper_encode (eng : engine) (model : whisper_context)
  (path language : string) (token_timestamps translate print_special : bool)
  (duration offset : Z) (trace : bool) (n_threads n_processors : Z)
  : M (Output.t * whisper_context) :=
  let params :=
    encode_params eng path language translate print_special duration offset
                  n_threads n_processors in
  (match Params.fname_inp params with
   | [] => stop "error: no input files specified" []
   | _ => ret tt
   end) ;;
  (if whisper_lang_id eng (Params.language params) =? -1
   then stop "Unknown language" [] else ret tt) ;;
  let ctx := model in
  st <- for_each_file eng token_timestamps trace (Params.fname_inp params) (params, ctx) ;;
  let '(params, ctx) := st in
  ret (assemble ctx params path token_timestamps duration offset, ctx).

(** ** The specification's formulations *)

Module Spec.

(** *** Timestamps: [HH:MM:SS.mmm], one tick being 10 milliseconds *)

Definition two_digits (n : Z) : string :=
  String (digit (n / 10)) (String (digit (n mod 10)) "").

Definition three_digits (n : Z) : string :=
  String (digit (n / 100))
    (String (digit ((n / 10) mod 10)) (String (digit (n mod 10)) "")).

Definition milliseconds (tick : Z) : Z := tick * 10.

Definition hundred_hours_ms : Z := 100 * 60 * 60 * 1000.

Definition timestamp (tick : Z) : string :=
  let ms := milliseconds tick in
  two_digits (ms / 3600000) ++ ":" ++
  two_digits ((ms / 60000) mod 60) ++ ":" ++
  two_digits ((ms / 1000) mod 60) ++ "." ++
  three_digits (ms mod 1000).

(** *** Diarization *)

Definition clamp (x lo hi : Z) : Z := Z.max lo (Z.min hi x).

(** [sample_index = clamp(tick * sample_rate / 100, 0, n_samples-1)]. *)
Definition sample_index (tick n_samples : Z) : Z :=
  clamp (tick * WHISPER_SAMPLE_RATE / 100) 0 (n_samples - 1).

(** The samples of a channel at the indices [[a, b)]. *)
Definition span (channel : list Q) (a b : Z) : list Q :=
  firstn (Z.to_nat (b - a)) (skipn (Z.to_nat a) channel).

(** Sum of the absolute values, added from the left as the loop does. *)
Definition sum_abs (xs : list Q) : Q :=
  fold_left (fun acc x => (acc + Qabs x)%Q) xs 0%Q.

Definition energy (channel : list Q) (a b : Z) : Q := sum_abs (span channel a b).

Inductive label : Type := Speaker0 | Speaker1 | Ambiguous.

Definition label_text (l : label) : string :=
  match l with
  | Speaker0 => "(speaker 0)"
  | Speaker1 => "(speaker 1)"
  | Ambiguous => "(speaker ?)"
  end.

Definition decide_label (energy0 energy1 : Q) : label :=
  if Qgtb energy0 ((11 # 10) * energy1)%Q then Speaker0
  else if Qgtb energy1 ((11 # 10) * energy0)%Q then Speaker1
  else Ambiguous.

Definition speaker_label (channel0 channel1 : list Q) (t0 t1 : Z) : label :=
  let n_samples := Z.of_nat (List.length channel0) in
  let a := sample_index t0 n_samples in
  let b := sample_index t1 n_samples in
  decide_label (energy channel0 a b) (energy channel1 a b).


(** *** The token table *)

(** Every token of the result set in emission order, with the 1-based
    number of its segment. *)
Fixpoint numbered_tokens (first : Z) (segments : list segment)
  : list (Z * whisper_token_data) :=
  match segments with
  | [] => []
  | s :: rest =>
      (map (fun tok => (first, tok)) (Segment.tokens s)
       ++ numbered_tokens (first + 1) rest)%list
  end.

Definition all_tokens (ctx : whisper_context) : list (Z * whisper_token_data) :=
  numbered_tokens 1 (Ctx.result_all ctx).

Definition is_special (ctx : whisper_context) (tok : whisper_token_data) : bool :=
  whisper_token_eot ctx <=? Token.id tok.

(** The tokens that get a row. *)
Definition rows (ctx : whisper_context) (print_special : bool)
  : list (Z * whisper_token_data) :=
  filter (fun r => print_special || negb (is_special ctx (snd r))) (all_tokens ctx).

End Spec.

(** ** A small engine to run the model on *)

Module Demo.

Definition tok (id : Z) (p : Q) (t0 t1 : Z) (text : string) : whisper_token_data :=
  {| Token.id := id; Token.p := p; Token.t0 := t0; Token.t1 := t1; Token.text := text |}.

Definition eot : Z := 50256.

Definition heard : list segment :=
  [ {| Segment.t0 := 0; Segment.t1 := 500; Segment.text := " Hello world";
       Segment.tokens :=
         [ tok 50363 (9 # 10) 0 0 "[_BEG_]"; tok 18435 (8 # 10) 10 120 " Hello";
           tok 995 1 120 480 " world"; tok 50613 (7 # 10) 500 500 "[_TT_250]" ] |};
    {| Segment.t0 := 500; Segment.t1 := 6000; Segment.text := " Bye";
       Segment.tokens :=
         [ tok 50363 (9 # 10) 500 500 "[_BEG_]"; tok 29449 (6 # 10) 520 900 " Bye";
           tok 50256 (5 # 10) 6000 6000 "[_EOT_]" ] |} ].

(** An English-only model and a multilingual one, before any run. *)
Definition english_model : whisper_context :=
  {| Ctx.is_multilingual := 0; Ctx.token_eot := eot; Ctx.result_all := [] |}.
Definition multilingual_model : whisper_context :=
  {| Ctx.is_multilingual := 1; Ctx.token_eot := eot + 1; Ctx.result_all := [] |}.

Definition wav (channels rate bits : Z) (frames : list Z) : drwav :=
  {| Wav.channels := channels; Wav.sampleRate := rate; Wav.bitsPerSample := bits;
     Wav.totalPCMFrameCount := Z.of_nat (List.length frames) / channels;
     Wav.frames := frames |}.

Definition files (path : string) : option drwav :=
  if String.eqb path "mono.wav" then Some (wav 1 16000 16 [100; -200; 300; 16384])
  else if String.eqb path "stereo.wav" then Some (wav 2 16000 16 [100; 0; -200; 10; 300; 0])
  else if String.eqb path "surround.wav" then Some (wav 3 16000 16 [1; 2; 3])
  else if String.eqb path "cd.wav" then Some (wav 2 44100 16 [1; 2])
  else if String.eqb path "eight.wav" then Some (wav 1 16000 8 [1; 2])
  else None.

Definition lang_id (l : string) : Z :=
  if String.eqb l "en" then 0
  else if String.eqb l "nl" then 4
  else if String.eqb l "fr" then 3
  else -1.

Definition defaults : Defaults.t :=
  {| Defaults.n_max_text_ctx := 16384; Defaults.thold_pt := 1 # 100;
     Defaults.max_len := 0; Defaults.speed_up := false |}.

(** A run that reports the two segments of [heard] one after the other. *)
Definition run (ctx : whisper_context) (wparams : whisper_full_params)
  (samples : list Q) (n_processors : Z) : engine_run :=
  let ctx1 := {| Ctx.is_multilingual := Ctx.is_multilingual ctx;
                 Ctx.token_eot := Ctx.token_eot ctx;
                 Ctx.result_all := firstn 1 heard |} in
  let ctx2 := {| Ctx.is_multilingual := Ctx.is_multilingual ctx;
                 Ctx.token_eot := Ctx.token_eot ctx;
                 Ctx.result_all := heard |} in
  {| new_segments := [(ctx1, 1); (ctx2, 1)]; ret_code := 0; ctx_after := ctx2 |}.

Definition eng : engine :=
  {| hardware_concurrency := 8;
     whisper_lang_id := lang_id;
     drwav_init_file := files;
     whisper_full_default_params := defaults;
     whisper_full_parallel := run |}.

(** Parameters with diarization switched on, as the callback can be given. *)
Definition diarizing : whisper_params :=
  let d := Params.default 8 in
  {| Params.n_threads := Params.n_threads d;
     Params.n_processors := Params.n_processors d;
     Params.offset_t_ms := Params.offset_t_ms d;
     Params.offset_n := Params.offset_n d;
     Params.duration_ms := Params.duration_ms d;
     Params.max_context := Params.max_context d;
     Params.max_len := Params.max_len d;
     Params.word_thold := Params.word_thold d;
     Params.speed_up := Params.speed_up d;
     Params.translate := Params.translate d;
     Params.diarize := true;
     Params.output_txt := Params.output_txt d;
     Params.output_vtt := Params.output_vtt d;
     Params.output_srt := Params.output_srt d;
     Params.output_wts := Params.output_wts d;
     Params.print_special := Params.print_special d;
     Params.print_colors := Params.print_colors d;
     Params.no_timestamps := Params.no_timestamps d;
     Params.language := Params.language d;
     Params.model := Params.model d;
     Params.fname_inp := Params.fname_inp d |}.

Definition loud : list Q := [1 # 2; (-1) # 2; 1 # 4].
Definition quiet : list Q := [1 # 100; 0; (-1) # 100]%Q.

End Demo.

(** ** The loop of the callback, one channel at a time *)

(** What [energy0] (or [energy1]) holds after the loop of lines 141-144. *)
Definition loop_energy (channel : list Q) (is0 is1 : Z) : Q :=
  fold_left (fun e j => (e + Qabs (at_index channel j 0%Q))%Q) (range is0 is1) 0%Q.

(** ** The language fallback, as a condition and its two outcomes *)

Definition fallback_applies (ctx : whisper_context) (params : whisper_params) : bool :=
  (whisper_is_multilingual ctx =? 0)
  && (negb (String.eqb (Params.language params) "en") || Params.translate params).

Definition effective_params (ctx : whisper_context) (params : whisper_params)
  : whisper_params :=
  if fallback_applies ctx params
  then Params.with_language_translate params "en" false
  else params.

Definition fallback_warnings (ctx : whisper_context) (params : whisper_params)
  : list event :=
  if fallback_applies ctx params then [Rwarning msg_not_multilingual] else [].

(** The speaker argument of the two [Rprintf] calls that print one
    (lines 172 and 178). *)
Definition speaker_printed (e : event) : option string :=
  match e with
  | Rprintf fmt [a; b; c; d] =>
      if String.eqb fmt ("[%s --> %s]  %s%s" ++ NL) then Some c
      else if String.eqb fmt "%s%s%s%s" then Some a
      else None
  | _ => None
  end.

(** ** The token loop, row by row *)

(** Appending one row per entry of [rs] to the token vectors. *)
Definition push_rows (token_timestamps : bool) (v : token_vectors)
  (rs : list (Z * whisper_token_data)) : token_vectors :=
  {| token_segment_nr := (token_segment_nr v ++ map fst rs)%list;
     token_segment_text :=
       (token_segment_text v ++ map (fun r => Token.text (snd r)) rs)%list;
     token_segment_probability :=
       (token_segment_probability v ++ map (fun r => Token.p (snd r)) rs)%list;
     token_segment_from :=
       if token_timestamps
       then (token_segment_from v
             ++ map (fun r => to_timestamp (Token.t0 (snd r)) false) rs)%list
       else token_segment_from v;
     token_segment_to :=
       if token_timestamps
       then (token_segment_to v
             ++ map (fun r => to_timestamp (Token.t1 (snd r)) false) rs)%list
       else token_segment_to v |}.

(** A token gets a row. *)
Definition kept (ctx : whisper_context) (print_special : bool)
  (tok : whisper_token_data) : bool :=
  print_special || negb (Spec.is_special ctx tok).

(** An event of the callback is a print or an interrupt check, and a speaker
    it prints is a label computed by [segment_speaker]. *)
Definition from_callback (ud : whisper_print_user_data) (e : event) : Prop :=
  is_FullParallel e = false /\
  forall s, speaker_printed e = Some s ->
            exists t0 t1, s = segment_speaker (ud_params ud) (ud_pcmf32s ud) t0 t1.

(** ** The text of a timestamp before [snprintf] bounds it *)

(** The seven pieces [to_timestamp] hands to [snprintf], in order. *)
Definition timestamp_pieces (t : Z) (comma : bool) : list string :=
  let msec := int64 (t * 10) in
  let hr := Z.quot msec (1000 * 60 * 60) in
  let msec := int64 (msec - hr * (1000 * 60 * 60)) in
  let min := Z.quot msec (1000 * 60) in
  let msec := int64 (msec - min * (1000 * 60)) in
  let sec := Z.quot msec 1000 in
  let msec := int64 (msec - sec * 1000) in
  [ fmt_0d 2 (int32 hr); ":"; fmt_0d 2 (int32 min); ":"; fmt_0d 2 (int32 sec);
    (if comma then "," else "."); fmt_0d 3 (int32 msec) ].

(** ** Sixteen-bit samples *)

(** The values a signed 16-bit PCM sample can take. *)
Definition is_int16 (x : Z) : Prop := -32768 <= x <= 32767.

(** A float sample normalised to [[-1, 1)]. *)
Definition normalised (x : Q) : Prop := (-1 <= x)%Q /\ (x < 1)%Q.

(** ** An engine whose decoder fails *)

Module Broken.

Definition run (ctx : whisper_context) (wparams : whisper_full_params)
  (samples : list Q) (n_processors : Z) : engine_run :=
  {| new_segments := []; ret_code := 7; ctx_after := ctx |}.

Definition eng : engine :=
  {| hardware_concurrency := 8;
     whisper_lang_id := Demo.lang_id;
     drwav_init_file := Demo.files;
     whisper_full_default_params := Demo.defaults;
     whisper_full_parallel := run |}.

End Broken.

(** ** The plain line of a segment *)

(** The line the callback prints for a segment when colours and diarization
    are off and timestamps are on. *)
Definition segment_line (seg : segment) : event :=
  Rprintf ("[%s --> %s]  %s%s" ++ NL)
    [to_timestamp (Segment.t0 seg) false; to_timestamp (Segment.t1 seg) false;
     ""; Segment.text seg].

(** ** [replace_all] (lines 45-52) *)

(** The three operations of [std::string] the helper uses. *)
Module Str.

(** [s.find(search, pos)]: the first position at or after [pos] where
    [search] occurs; [None] is [npos]. *)
Definition find (s search : string) (pos : nat) : option nat :=
  String.index pos search s.

(** [s.erase(pos, len)]. *)
Definition erase (s : string) (pos len : nat) : string :=
  substring 0 pos s ++ substring (pos + len) (String.length s - (pos + len)) s.

(** [s.insert(pos, r)]. *)
Definition insert (s : string) (pos : nat) (r : string) : string :=
  substring 0 pos s ++ r ++ substring pos (String.length s - pos) s.

End Str.

(** The loop, from the position [pos]; [fuel] bounds the number of turns,
    and [None] says the loop is still running when the fuel is spent. *)
Fixpoint replace_all_from (fuel : nat) (s search replace : string) (pos : nat)
  : option string :=
  match fuel with
  | O => None
  | S fuel' =>
      match Str.find s search pos with
      | None => Some s (* break *)
      | Some pos =>
          let s := Str.erase s pos (String.length search) in
          let s := Str.insert s pos replace in
          replace_all_from fuel' s search replace (pos + String.length replace)
      end
  end.

Definition replace_all (fuel : nat) (s search replace : string) : option string :=
  replace_all_from fuel s search replace 0.

(** Replacing, from left to right, every occurrence of [search] that does
    not overlap an earlier one; [skip] counts the characters of the
    occurrence just replaced that are still to be dropped. *)
Fixpoint substitute_skip (search replace : string) (skip : nat) (s : string) : string :=
  match s with
  | EmptyString => EmptyString
  | String c s' =>
      match skip with
      | S k => substitute_skip search replace k s'
      | O =>
          if prefix search s
          then replace ++ substitute_skip search replace (String.length search - 1) s'
          else String c (substitute_skip search replace 0 s')
      end
  end.

Definition substitute (search replace s : string) : string :=
  substitute_skip search replace 0 s.

(** ** The speaker label in double precision (lines 130-155) *)

(** [double] is IEEE 754 binary64 with rounding to nearest, ties to even,
    and no wider intermediate format: the primitive floats of Rocq. A
    [float] sample is converted to [double] without change of value. *)

Module Double.

Import PrimFloat.

(** The literal [1.1] of lines 146 and 148: the binary64 number nearest to
    11/10, which is 2476979795053773 / 2^51. *)
Definition ONE_POINT_ONE : float := 0x1.199999999999ap+0%float.

(** [a > b] on doubles; false when either side is not a number. *)
Definition gt (a b : float) : bool := ltb b a.

(** [pcmf32s[c][j]]; a [float] sample is a double with a short mantissa. *)
Definition sample (pcmf32s : list (list float)) (c : nat) (j : Z) : float :=
  at_index (nth c pcmf32s []) j 0%float.

(** Lines 130-155 with [double energy0], [double energy1]: [fabs] is
    exact, [+=] and [1.1*energy] round to binary64. *)
Definition segment_speaker (params : whisper_params) (pcmf32s : list (list float))
  (t0 t1 : Z) : string :=
  if Params.diarize params && (List.length pcmf32s =? 2)%nat then
    let n_samples := Z.of_nat (List.length (nth 0%nat pcmf32s [])) in
    let is0 := timestamp_to_sample t0 n_samples in
    let is1 := timestamp_to_sample t1 n_samples in
    let '(energy0, energy1) :=
      fold_left
        (fun '(energy0, energy1) j =>
           (add energy0 (abs (sample pcmf32s 0 j)),
            add energy1 (abs (sample pcmf32s 1 j))))
        (range is0 is1) (0%float, 0%float) in
    if gt energy0 (mul ONE_POINT_ONE energy1) then "(speaker 0)"
    else if gt energy1 (mul ONE_POINT_ONE energy0) then "(speaker 1)"
    else "(speaker ?)"
  else "".

(** *** The specification's formulation, read in double precision *)

(** The samples of a channel at the indices [[a, b)]. *)
Definition span (channel : list float) (a b : Z) : list float :=
  firstn (Z.to_nat (b - a)) (skipn (Z.to_nat a) channel).

(** The sum of the absolute values, accumulated in index order from 0. *)
Definition sum_abs (xs : list float) : float :=
  fold_left (fun acc x => add acc (abs x)) xs 0%float.

Definition energy (channel : list float) (a b : Z) : float := sum_abs (span channel a b).

Definition decide_label (energy0 energy1 : float) : Spec.label :=
  if gt energy0 (mul ONE_POINT_ONE energy1) then Spec.Speaker0
  else if gt energy1 (mul ONE_POINT_ONE energy0) then Spec.Speaker1
  else Spec.Ambiguous.

Definition speaker_label (channel0 channel1 : list float) (t0 t1 : Z) : Spec.label :=
  let n_samples := Z.of_nat (List.length channel0) in
  let a := Spec.sample_index t0 n_samples in
  let b := Spec.sample_index t1 n_samples in
  decide_label (energy channel0 a b) (energy channel1 a b).

(** *** Sample buffers to run it on *)

Definition loud : list float := [0x1p-1; -0x1p-1; 0x1p-2]%float.
Definition quiet : list float := [0x1p-7; 0; -0x1p-7]%float.

(** Three [float] samples whose absolute values add up, without any
    rounding, to the double [ONE_POINT_ONE], next to a channel of energy 1. *)
Definition tipping : list float :=
  [0x1.199998p+0; 0x1.999998p-24; 0x1.ap-48; 0]%float.
Definition unit_pulse : list float := [1; 0; 0; 0]%float.

(** The same with the third sample one [float] step larger: the sum passes
    [ONE_POINT_ONE] by [2^-71], less than half a unit in its last place. *)
Definition tipping_over : list float :=
  [0x1.199998p+0; 0x1.999998p-24; 0x1.a00002p-48; 0]%float.

(** *** The number a double stands for *)

(** The exact value of a finite double, read off its sign, mantissa and
    exponent; 0 for infinities and NaN, which no example here contains. *)
Definition value (x : float) : Q :=
  match FloatOps.Prim2SF x with
  | SpecFloat.S754_finite s m e =>
      let n := if s then Z.neg m else Z.pos m in
      Qred (match e with
            | Z0 => n # 1
            | Zpos p => (n * 2 ^ Z.pos p) # 1
            | Zneg p => n # (2 ^ p)
            end)
  | _ => 0%Q
  end.

(** The double is a normal [float] (24 significant bits, exponent between
    -126 and 127) or zero: a value a [std::vector<float>] can hold. *)
Definition is_single (x : float) : bool :=
  match FloatOps.Prim2SF x with
  | SpecFloat.S754_zero _ => true
  | SpecFloat.S754_finite _ m e =>
      (Z.pos m mod 2 ^ 29 =? 0) && (-126 <=? e + 52) && (e + 52 <=? 127)
  | _ => false
  end.

End Double.

(** ** How the message of a stop is rendered *)

(** [Rcpp::stop(fmt, args...)] formats its message printf-style: an
    argument is printed where the format has a conversion specifier. The
    formats of this file use no specifier other than ["%s"], and what a
    formatter does with an argument that no specifier asks for differs: a
    lenient one (as C's [printf]) drops it, a strict one reports a
    formatting error instead of the message. [strict] chooses between the
    two. *)
Inductive rendering : Type :=
| Rendered (text : string)
| FormatError.

Definition prepend (s : string) (r : rendering) : rendering :=
  match r with
  | Rendered text => Rendered (s ++ text)
  | FormatError => FormatError
  end.

Fixpoint render_format (strict : bool) (fmt : string) (args : list string)
  : rendering :=
  match fmt with
  | EmptyString =>
      match args with
      | [] => Rendered ""
      | _ :: _ => if strict then FormatError else Rendered ""
      end
  | String c rest =>
      match c, rest with
      | "%"%char, String "s"%char rest' =>
          match args with
          | a :: args' => prepend a (render_format strict rest' args')
          | [] => FormatError
          end
      | _, _ => prepend (String c "") (render_format strict rest args)
      end
  end.

Definition render_stop (strict : bool) (e : error) : rendering :=
  match e with Stop fmt args => render_format strict fmt args end.

(** The rendered message contains [name]. *)
Definition mentions (r : rendering) (name : string) : bool :=
  match r with
  | Rendered text =>
      match String.index 0 name text with Some _ => true | None => false end
  | FormatError => false
  end.

(** * Properties *)

(** ** Fixed-width arithmetic *)

Lemma int32_small x : INT_MIN <= x <= INT_MAX -> int32 x = x.
Proof.
  unfold INT_MIN, INT_MAX, int32, wrap. intros H.
  rewrite Z.mod_small; lia.
Qed.

Lemma int64_small x : - 2 ^ 63 <= x < 2 ^ 63 -> int64 x = x.
Proof.
  unfold int64, wrap. intros H.
  rewrite Z.mod_small; lia.
Qed.

(** ** Timestamps *)

Section Timestamps.

(** The two fixed-width conversions agree with the digit-by-digit
    rendering on the whole range of their field: checked by running both
    on every value of the range. *)
Lemma fmt_0d_2_digits n : 0 <= n < 100 -> fmt_0d 2 n = Spec.two_digits n.
Proof.
  intros Hn.
  assert (Hall : forallb (fun k => String.eqb (fmt_0d 2 (Z.of_nat k))
                                     (Spec.two_digits (Z.of_nat k)))
                         (seq 0 100) = true) by (vm_compute; reflexivity).
  pose proof (proj1 (forallb_forall _ _) Hall (Z.to_nat n)) as Hn'.
  cbv beta in Hn'. rewrite Z2Nat.id in Hn' by lia.
  apply String.eqb_eq, Hn', in_seq. lia.
Qed.

Lemma fmt_0d_3_digits n : 0 <= n < 1000 -> fmt_0d 3 n = Spec.three_digits n.
Proof.
  intros Hn.
  assert (Hall : forallb (fun k => String.eqb (fmt_0d 3 (Z.of_nat k))
                                     (Spec.three_digits (Z.of_nat k)))
                         (seq 0 1000) = true) by (vm_compute; reflexivity).
  pose proof (proj1 (forallb_forall _ _) Hall (Z.to_nat n)) as Hn'.
  cbv beta in Hn'. rewrite Z2Nat.id in Hn' by lia.
  apply String.eqb_eq, Hn', in_seq. lia.
Qed.

(** The four fields the source peels off a duration below 100 hours. *)
Lemma peel_fields ms :
  0 <= ms < Spec.hundred_hours_ms ->
  let hr := Z.quot ms (1000 * 60 * 60) in
  let m1 := int64 (ms - hr * (1000 * 60 * 60)) in
  let min := Z.quot m1 (1000 * 60) in
  let m2 := int64 (m1 - min * (1000 * 60)) in
  let sec := Z.quot m2 1000 in
  let m3 := int64 (m2 - sec * 1000) in
  hr = ms / 3600000 /\ min = (ms / 60000) mod 60 /\
  sec = (ms / 1000) mod 60 /\ m3 = ms mod 1000.
Proof.
  intros Hms hr m1 min m2 sec m3. unfold Spec.hundred_hours_ms in Hms.
  assert (Hhr : hr = ms / 3600000).
  { unfold hr. rewrite Z.quot_div_nonneg by lia. reflexivity. }
  assert (Hm1 : m1 = ms mod 3600000).
  { unfold m1. rewrite Hhr.
    rewrite int64_small; Z.to_euclidean_division_equations; lia. }
  assert (Hmin : min = (ms / 60000) mod 60).
  { unfold min. rewrite Hm1.
    rewrite Z.quot_div_nonneg; Z.to_euclidean_division_equations; lia. }
  assert (Hm2 : m2 = ms mod 60000).
  { unfold m2. rewrite Hmin, Hm1.
    rewrite int64_small; Z.to_euclidean_division_equations; lia. }
  assert (Hsec : sec = (ms / 1000) mod 60).
  { unfold sec. rewrite Hm2.
    rewrite Z.quot_div_nonneg; Z.to_euclidean_division_equations; lia. }
  assert (Hm3 : m3 = ms mod 1000).
  { unfold m3. rewrite Hsec, Hm2.
    rewrite int64_small; Z.to_euclidean_division_equations; lia. }
  auto.
Qed.

End Timestamps.

(** C4 (as amended). [to_timestamp] sends 0 ticks to "00:00:00.000" and 500
    ticks to "00:00:05.000"; 6000 ticks are one minute and give
    "00:01:00.000", and "01:00:00.000" is the timestamp of 360000 ticks. *)
Theorem to_timestamp_examples :
  to_timestamp 0 false = "00:00:00.000" /\
  to_timestamp 500 false = "00:00:05.000" /\
  to_timestamp 6000 false = "00:01:00.000" /\
  to_timestamp 360000 false = "01:00:00.000".
Proof. repeat split; vm_compute; reflexivity. Qed.

(** C4 as first stated fails on its third example: 6000 ticks do not give
    "01:00:00.000". *)
Lemma to_timestamp_6000_is_not_one_hour :
  to_timestamp 6000 false <> "01:00:00.000".
Proof. vm_compute. discriminate. Qed.

(** C5. For a tick count [t >= 0] whose duration [t * 10] ms is below 100
    hours, [to_timestamp t] is [HH:MM:SS.mmm], the zero-padded hours,
    minutes, seconds and milliseconds of that duration. *)
Theorem to_timestamp_is_hh_mm_ss_mmm (t : Z) :
  0 <= t ->
  Spec.milliseconds t < Spec.hundred_hours_ms ->
  to_timestamp t false = Spec.timestamp t.
Proof.
  unfold Spec.milliseconds. intros Ht Hlt.
  assert (Hms : 0 <= t * 10 < Spec.hundred_hours_ms) by lia.
  pose proof (peel_fields (t * 10) Hms) as H. cbv zeta in H.
  destruct H as (Hhr & Hmin & Hsec & Hm3).
  unfold to_timestamp, Spec.timestamp, Spec.milliseconds.
  unfold Spec.hundred_hours_ms in *.
  rewrite (int64_small (t * 10)) by lia.
  rewrite Hm3, Hsec, Hmin, Hhr.
  rewrite !int32_small
    by (unfold INT_MIN, INT_MAX; Z.to_euclidean_division_equations; lia).
  rewrite !fmt_0d_2_digits, fmt_0d_3_digits
    by (Z.to_euclidean_division_equations; lia).
  reflexivity.
Qed.

Lemma to_timestamp_is_hh_mm_ss_mmm_witness :
  0 <= 35999999 /\
  Spec.milliseconds 35999999 < Spec.hundred_hours_ms /\
  to_timestamp 35999999 false = Spec.timestamp 35999999 /\
  Spec.timestamp 35999999 = "99:59:59.990".
Proof.
  split; [lia|]. split; [vm_compute; reflexivity|].
  split; [|vm_compute; reflexivity].
  apply (to_timestamp_is_hh_mm_ss_mmm 35999999).
  - lia.
  - vm_compute. reflexivity.
Defined.

(** ** Colour index *)

Section Colours.

Lemma k_colors_size_10 : k_colors_size = 10.
Proof. reflexivity. Qed.

Lemma Qtrunc_below (q : Q) (n : Z) :
  0 < n -> (q < inject_Z n)%Q -> Qtrunc q < n.
Proof.
  destruct q as [a b]. unfold Qtrunc, Qlt. simpl. intros Hn Hlt.
  Z.to_euclidean_division_equations. nia.
Qed.

Lemma Qtrunc_nonneg (q : Q) : (0 <= q)%Q -> 0 <= Qtrunc q.
Proof.
  destruct q as [a b]. unfold Qtrunc, Qle. simpl. intros Hle.
  Z.to_euclidean_division_equations. nia.
Qed.

Lemma cube_below_one (p : Q) : (0 <= p)%Q -> (p < 1)%Q -> (Qpower p 3 < 1)%Q.
Proof.
  intros H0 H1.
  assert (E : (Qpower p 3 == p * p * p)%Q) by (simpl; ring).
  rewrite E.
  assert (H2 : (p * p <= p)%Q) by nra.
  assert (H3 : (0 <= p * p)%Q) by nra.
  nra.
Qed.

(** Below probability 1 the index stays inside the palette. *)
Lemma color_index_below_one (p : Q) :
  (0 <= p)%Q -> (p < 1)%Q -> 0 <= color_index p <= 9.
Proof.
  intros H0 H1. unfold color_index. rewrite k_colors_size_10.
  assert (Hlt : Qtrunc (Qpower p 3 * inject_Z 10)%Q < 10).
  { apply Qtrunc_below; [lia|].
    pose proof (cube_below_one p H0 H1) as Hc.
    assert (E : (inject_Z 10 == 10)%Q) by reflexivity.
    rewrite E. lra. }
  lia.
Qed.

End Colours.

(** C8, at the input where the code leaves the palette. For the probability
    1 the index is 10, the size of the palette, and [k_colors[10]] lies
    outside its ten entries; every probability of [[0, 1]] gives an index in
    [[0, 10]]. *)
Theorem color_index_overruns_palette :
  color_index 1 = 10 /\
  List.length k_colors = 10%nat /\
  k_colors_at (color_index 1) = None /\
  (forall p : Q, 0 <= color_index p <= 10).
Proof.
  repeat split; try reflexivity.
  - unfold color_index. lia.
  - unfold color_index. rewrite k_colors_size_10. lia.
Qed.

(** ** Diarization *)

Section Diarization.

Lemma fold_left_pair {A} (f g : A -> Q) (l : list A) (x y : Q) :
  fold_left (fun '(a, b) j => ((a + f j)%Q, (b + g j)%Q)) l (x, y)
  = (fold_left (fun a j => (a + f j)%Q) l x,
     fold_left (fun b j => (b + g j)%Q) l y).
Proof.
  revert x y. induction l as [|j l IH]; intros x y; simpl.
  - reflexivity.
  - apply IH.
Qed.

Lemma fold_left_map_arg {A B C} (f : C -> B -> C) (g : A -> B) (l : list A) (c : C) :
  fold_left (fun acc a => f acc (g a)) l c = fold_left f (map g l) c.
Proof.
  revert c. induction l as [|a l IH]; intros c; simpl; [reflexivity | apply IH].
Qed.

(** The label in terms of the two loop sums: the form C7 starts from. *)
Lemma segment_speaker_loop params c0 c1 t0 t1 :
  Params.diarize params = true ->
  let n_samples := Z.of_nat (List.length c0) in
  let is0 := timestamp_to_sample t0 n_samples in
  let is1 := timestamp_to_sample t1 n_samples in
  segment_speaker params [c0; c1] t0 t1
  = Spec.label_text
      (Spec.decide_label (loop_energy c0 is0 is1) (loop_energy c1 is0 is1)).
Proof.
  intros Hd n_samples is0 is1.
  unfold segment_speaker. rewrite Hd. cbn [andb List.length Nat.eqb nth].
  fold n_samples. fold is0. fold is1.
  unfold sample. cbn [nth].
  rewrite (fold_left_pair (fun j => Qabs (at_index c0 j 0%Q))
                          (fun j => Qabs (at_index c1 j 0%Q))).
  unfold Spec.decide_label, loop_energy.
  destruct (Qgtb _ _); [reflexivity|].
  destruct (Qgtb _ _); reflexivity.
Qed.

Lemma loop_energy_nonneg c a b : (0 <= loop_energy c a b)%Q.
Proof.
  unfold loop_energy.
  assert (H : forall l acc, (0 <= acc)%Q ->
            (0 <= fold_left (fun e j => (e + Qabs (at_index c j 0%Q))%Q) l acc)%Q).
  { induction l as [|j l IH]; intros acc Hacc; simpl; [assumption|].
    apply IH. pose proof (Qabs_nonneg (at_index c j 0%Q)). lra. }
  apply H. lra.
Qed.

Lemma Qgtb_true a b : Qgtb a b = true <-> (b < a)%Q.
Proof.
  unfold Qgtb. rewrite negb_true_iff, <- not_true_iff_false, Qle_bool_iff.
  split; [apply Qnot_le_lt | apply Qlt_not_le].
Qed.


(** *** Sample indices without overflow *)

Lemma timestamp_to_sample_clamp t n_samples :
  0 <= n_samples <= INT_MAX ->
  INT_MIN <= t * 160 <= INT_MAX ->
  timestamp_to_sample t n_samples = Spec.sample_index t n_samples.
Proof.
  unfold timestamp_to_sample, Spec.sample_index, Spec.clamp, WHISPER_SAMPLE_RATE.
  unfold INT_MIN, INT_MAX. intros Hn Ht.
  rewrite (int32_small n_samples) by (unfold INT_MIN, INT_MAX; lia).
  rewrite (int32_small (n_samples - 1)) by (unfold INT_MIN, INT_MAX; lia).
  rewrite int64_small by lia.
  replace (t * 16000) with (t * 160 * 100) by lia.
  rewrite Z.quot_mul, Z.div_mul by lia.
  rewrite int32_small by (unfold INT_MIN, INT_MAX; lia).
  reflexivity.
Qed.

Lemma sample_index_bounds t n :
  0 <= n -> 0 <= Spec.sample_index t n <= n.
Proof. unfold Spec.sample_index, Spec.clamp. lia. Qed.

(** *** The loop reads the span of the channel *)

Lemma skipn_nth_cons {A} (d : A) (l : list A) (s : nat) :
  (s < List.length l)%nat -> skipn s l = nth s l d :: skipn (S s) l.
Proof.
  revert s. induction l as [|x l IH]; intros s Hs; simpl in Hs; [lia|].
  destruct s as [|s]; [reflexivity|].
  cbn [skipn nth]. rewrite (IH s) by lia. reflexivity.
Qed.

Lemma firstn_skipn_nth {A} (d : A) (l : list A) (m s : nat) :
  (s + m <= List.length l)%nat ->
  firstn m (skipn s l) = map (fun k => nth (s + k) l d) (seq 0 m).
Proof.
  revert s. induction m as [|m IH]; intros s Hs.
  - reflexivity.
  - rewrite (skipn_nth_cons d) by lia.
    cbn [firstn seq map]. rewrite Nat.add_0_r. f_equal.
    rewrite IH by lia. rewrite <- seq_shift, map_map.
    apply map_ext. intros k. f_equal. lia.
Qed.

Lemma range_reads_span (c : list Q) (a b : Z) :
  0 <= a -> b <= Z.of_nat (List.length c) ->
  map (fun j => at_index c j 0%Q) (range a b) = Spec.span c a b.
Proof.
  intros Ha Hb. unfold Spec.span, range.
  destruct (Z_le_gt_dec b a) as [Hle|Hgt].
  - replace (Z.to_nat (b - a)) with 0%nat by lia. reflexivity.
  - rewrite (firstn_skipn_nth 0%Q) by lia.
    rewrite map_map. apply map_ext. intros k.
    unfold at_index.
    destruct (Z.ltb_spec (a + Z.of_nat k) 0) as [Hneg|_]; [lia|].
    f_equal. lia.
Qed.

Lemma loop_energy_span c a b :
  0 <= a -> b <= Z.of_nat (List.length c) ->
  loop_energy c a b = Spec.energy c a b.
Proof.
  intros Ha Hb. unfold loop_energy, Spec.energy, Spec.sum_abs.
  rewrite <- (range_reads_span c a b Ha Hb).
  rewrite (fold_left_map_arg (fun acc x => (acc + Qabs x)%Q)
                             (fun j => at_index c j 0%Q)).
  reflexivity.
Qed.

End Diarization.

(** ** The label in double precision *)

Section DoubleDiarization.

Lemma fold_left_pair_steps {A B C} (f : B -> A -> B) (g : C -> A -> C)
  (l : list A) (x : B) (y : C) :
  fold_left (fun '(a, b) j => (f a j, g b j)) l (x, y)
  = (fold_left f l x, fold_left g l y).
Proof.
  revert x y. induction l as [|j l IH]; intros x y; simpl.
  - reflexivity.
  - apply IH.
Qed.

Lemma range_reads_slice {A} (d : A) (c : list A) (a b : Z) :
  0 <= a -> b <= Z.of_nat (List.length c) ->
  map (fun j => at_index c j d) (range a b)
  = firstn (Z.to_nat (b - a)) (skipn (Z.to_nat a) c).
Proof.
  intros Ha Hb. unfold range.
  destruct (Z_le_gt_dec b a) as [Hle|Hgt].
  - replace (Z.to_nat (b - a)) with 0%nat by lia. reflexivity.
  - rewrite (firstn_skipn_nth d) by lia.
    rewrite map_map. apply map_ext. intros k.
    unfold at_index.
    destruct (Z.ltb_spec (a + Z.of_nat k) 0) as [Hneg|_]; [lia|].
    f_equal. lia.
Qed.

(** One accumulator of the loop is the double sum over the span. *)
Lemma double_loop_energy (c : list PrimFloat.float) (a b : Z) :
  0 <= a -> b <= Z.of_nat (List.length c) ->
  fold_left (fun e j => PrimFloat.add e (PrimFloat.abs (at_index c j PrimFloat.zero)))
            (range a b) PrimFloat.zero
  = Double.energy c a b.
Proof.
  intros Ha Hb. unfold Double.energy, Double.sum_abs, Double.span.
  rewrite <- (range_reads_slice PrimFloat.zero c a b Ha Hb).
  rewrite (fold_left_map_arg (fun acc x => PrimFloat.add acc (PrimFloat.abs x))
                             (fun j => at_index c j PrimFloat.zero)).
  reflexivity.
Qed.

End DoubleDiarization.

(** C6 (as amended). With diarization enabled and two channel buffers of
    equal length below 2^31 samples, for a segment whose ticks [t0], [t1]
    keep [t * 160] inside the range of [int], the label is the one of the
    energies over the index range
    [[clamp(t0*16000/100, 0, n_samples-1), clamp(t1*16000/100, 0, n_samples-1))],
    in double precision: each energy is the sum of the absolute sample
    values of its channel over that range, added up from 0 in index order
    with every addition rounded to a double; speaker 0 if the energy of
    channel 0 is strictly greater than the rounded product of the double
    1.1 and the energy of channel 1, speaker 1 in the symmetric case, and
    "speaker ?" otherwise. *)
Theorem segment_speaker_by_double_energy params (c0 c1 : list PrimFloat.float) t0 t1 :
  Params.diarize params = true ->
  List.length c0 = List.length c1 ->
  Z.of_nat (List.length c0) <= INT_MAX ->
  INT_MIN <= t0 * 160 <= INT_MAX ->
  INT_MIN <= t1 * 160 <= INT_MAX ->
  Double.segment_speaker params [c0; c1] t0 t1
  = Spec.label_text (Double.speaker_label c0 c1 t0 t1).
Proof.
  intros Hd Hlen Hn Ht0 Ht1.
  unfold Double.segment_speaker. rewrite Hd. cbn [andb List.length Nat.eqb nth].
  unfold Double.sample. cbn [nth].
  rewrite (fold_left_pair_steps
             (fun e j => PrimFloat.add e (PrimFloat.abs (at_index c0 j PrimFloat.zero)))
             (fun e j => PrimFloat.add e (PrimFloat.abs (at_index c1 j PrimFloat.zero)))).
  unfold Double.speaker_label.
  set (n := Z.of_nat (List.length c0)) in *.
  assert (Hn0 : 0 <= n) by (unfold n; lia).
  rewrite !timestamp_to_sample_clamp by lia.
  pose proof (sample_index_bounds t0 n Hn0) as B0.
  pose proof (sample_index_bounds t1 n Hn0) as B1.
  rewrite !double_loop_energy by (try rewrite <- Hlen; fold n; lia).
  unfold Double.decide_label.
  destruct (Double.gt _ _); [reflexivity|].
  destruct (Double.gt _ _); reflexivity.
Qed.

Lemma segment_speaker_by_double_energy_witness :
  Double.segment_speaker Demo.diarizing [Double.loud; Double.quiet] 0 1
  = Spec.label_text (Double.speaker_label Double.loud Double.quiet 0 1).
Proof.
  apply (segment_speaker_by_double_energy Demo.diarizing Double.loud Double.quiet 0 1).
  - reflexivity.
  - reflexivity.
  - vm_compute. discriminate.
  - unfold INT_MIN, INT_MAX. lia.
  - unfold INT_MIN, INT_MAX. lia.
Defined.

(** C6 as first stated fails in two ways.

    When the [(int)] cast wraps: the tick 13421773 gives
    13421773 * 160 = 2^31 + 32, which the cast turns negative, so the end
    index is 0 instead of [n_samples - 1]; the loop adds nothing and the
    label is "speaker ?", where the energies over the stated range give
    speaker 0.

    When the rounding decides: over the span [[0, 3)] the samples of
    [Double.tipping] add up to exactly the double 1.1, which is
    2476979795053773 / 2^51 and larger than 11/10, and the other channel has
    energy 1. The code compares that sum with the double 1.1 itself, finds
    neither side greater and prints "speaker ?"; the sums of the values
    compared with 1.1 times the other give speaker 0. With
    [Double.tipping_over] the sum of the values is larger than the double
    1.1 as well, but the last addition of the code rounds it down to the
    double 1.1: the code prints "speaker ?" again. Every sample of these
    buffers is a [float]. *)
Lemma segment_speaker_differs_from_exact_energy :
  (Double.segment_speaker Demo.diarizing [Double.loud; Double.quiet] 0 13421773
   = "(speaker ?)" /\
   Spec.label_text (Double.speaker_label Double.loud Double.quiet 0 13421773)
   = "(speaker 0)")
  /\
  (Double.segment_speaker Demo.diarizing [Double.tipping; Double.unit_pulse] 0 1
   = "(speaker ?)" /\
   Spec.label_text
     (Spec.speaker_label (map Double.value Double.tipping)
                         (map Double.value Double.unit_pulse) 0 1)
   = "(speaker 0)" /\
   Spec.energy (map Double.value Double.tipping) 0 3
   == Double.value Double.ONE_POINT_ONE /\
   Double.value Double.ONE_POINT_ONE == 2476979795053773 # 2251799813685248 /\
   11 # 10 < Double.value Double.ONE_POINT_ONE)%Q
  /\
  (Double.segment_speaker Demo.diarizing [Double.tipping_over; Double.unit_pulse] 0 1
   = "(speaker ?)" /\
   Double.value Double.ONE_POINT_ONE * Spec.energy (map Double.value Double.unit_pulse) 0 3
   < Spec.energy (map Double.value Double.tipping_over) 0 3)%Q
  /\
  forallb Double.is_single
    (Double.loud ++ Double.quiet ++ Double.tipping ++ Double.tipping_over
     ++ Double.unit_pulse)%list = true.
Proof.
  refine (conj (conj _ _)
          (conj (conj _ (conj _ (conj _ (conj _ _)))) (conj (conj _ _) _)));
    vm_compute; reflexivity.
Qed.



(** ** The shape of a call of [whisper_encode] *)

Section Call.

Variable eng : engine.
Variables (token_timestamps trace : bool).

Lemma language_fallback_eq ctx params :
  language_fallback ctx params
  = (fallback_warnings ctx params, inr (effective_params ctx params)).
Proof.
  unfold language_fallback, fallback_warnings, effective_params, fallback_applies.
  destruct (whisper_is_multilingual ctx =? 0); [|reflexivity].
  destruct (negb (String.eqb (Params.language params) "en") || Params.translate params);
    reflexivity.
Qed.

Lemma load_wav_silent params fname : trace_of (load_wav eng params fname) = [].
Proof.
  unfold load_wav.
  destruct (drwav_init_file eng fname) as [wav|]; [|reflexivity].
  repeat match goal with
         | |- context [if ?b then _ else _] => destruct b; try reflexivity
         end.
Qed.

Lemma process_file_fails params ctx fname e :
  result_of (load_wav eng params fname) = inl e ->
  process_file eng token_timestamps trace fname (params, ctx) = ([], inl e).
Proof.
  intros H. unfold process_file.
  pose proof (load_wav_silent params fname) as Htr.
  destruct (load_wav eng params fname) as [tr r]. simpl in H, Htr. subst.
  reflexivity.
Qed.

Lemma process_file_runs params ctx fname pcmf32 pcmf32s :
  result_of (load_wav eng params fname) = inr (pcmf32, pcmf32s) ->
  let params' := effective_params ctx params in
  let wparams :=
    inference_params (whisper_full_default_params eng) params' pcmf32s
                     token_timestamps trace in
  let run := whisper_full_parallel eng ctx wparams pcmf32 (Params.n_processors params') in
  process_file eng token_timestamps trace fname (params, ctx)
  = ((fallback_warnings ctx params
      ++ Rcout_processing fname (int32 (Z.of_nat (List.length pcmf32)))
           (Params.language params') (Params.translate params') token_timestamps
      :: FullParallel wparams pcmf32 (Params.n_processors params')
      :: callback_output wparams run)%list,
     if negb (ret_code run =? 0) then inl (Stop "failed to process audio" [])
     else inr (params', ctx_after run)).
Proof.
  intros H params' wparams run. unfold process_file.
  pose proof (load_wav_silent params fname) as Htr.
  destruct (load_wav eng params fname) as [tr r]. simpl in H, Htr. subst.
  unfold bind at 1. cbn [app].
  rewrite language_fallback_eq. fold params'.
  unfold bind at 1. unfold emit at 1. unfold bind at 1.
  fold wparams. fold run. unfold emit, bind.
  destruct (negb (ret_code run =? 0)); cbn [stop ret app];
    rewrite ?app_nil_r; reflexivity.
Qed.

Variables (model : whisper_context) (path language : string).
Variables (translate print_special : bool) (duration offset n_threads n_processors : Z).

Let params0 : whisper_params :=
  encode_params eng path language translate print_special duration offset
                n_threads n_processors.

Let call : M (Output.t * whisper_context) :=
  whisper_encode eng model path language token_timestamps translate print_special
                 duration offset trace n_threads n_processors.

Lemma call_unknown_language :
  whisper_lang_id eng language = -1 ->
  call = ([], inl (Stop "Unknown language" [])).
Proof.
  intros H. unfold call, whisper_encode.
  cbn [encode_params Params.fname_inp Params.language Params.default app].
  rewrite H. reflexivity.
Qed.

Lemma call_known_language :
  whisper_lang_id eng language <> -1 ->
  call = bind (process_file eng token_timestamps trace path (params0, model))
              (fun st => ret (assemble (snd st) (fst st) path token_timestamps
                                       duration offset, snd st)).
Proof.
  intros H. unfold call, whisper_encode. fold params0.
  assert (Hf : Params.fname_inp params0 = [path]) by reflexivity.
  assert (Hl : Params.language params0 = language) by reflexivity.
  rewrite Hf, Hl.
  apply Z.eqb_neq in H. rewrite H.
  cbn [for_each_file]. unfold bind at 1 2. unfold ret at 1 2. cbn [app].
  unfold bind.
  destruct (process_file eng token_timestamps trace path (params0, model))
    as [tr [e|[p c]]]; cbn [ret app snd fst]; rewrite ?app_nil_r; reflexivity.
Qed.

End Call.

(** The two ways a call can go: it stops before the engine is reached, or
    the file loads and the engine runs once. *)
Lemma call_outcome (eng : engine) (model : whisper_context) (path language : string)
  (token_timestamps translate print_special : bool) (duration offset : Z)
  (trace : bool) (n_threads n_processors : Z) :
  let params :=
    encode_params eng path language translate print_special duration offset
                  n_threads n_processors in
  let call :=
    whisper_encode eng model path language token_timestamps translate print_special
                   duration offset trace n_threads n_processors in
  (exists e, call = ([], inl e) /\
     ((whisper_lang_id eng language = -1 /\ e = Stop "Unknown language" []) \/
      (whisper_lang_id eng language <> -1 /\
       result_of (load_wav eng params path) = inl e)))
  \/
  (exists pcmf32 pcmf32s,
     whisper_lang_id eng language <> -1 /\
     result_of (load_wav eng params path) = inr (pcmf32, pcmf32s) /\
     let params' := effective_params model params in
     let wparams :=
       inference_params (whisper_full_default_params eng) params' pcmf32s
                        token_timestamps trace in
     let run := whisper_full_parallel eng model wparams pcmf32 (Params.n_processors params') in
     call =
       ((fallback_warnings model params
         ++ Rcout_processing path (int32 (Z.of_nat (List.length pcmf32)))
              (Params.language params') (Params.translate params') token_timestamps
         :: FullParallel wparams pcmf32 (Params.n_processors params')
         :: callback_output wparams run)%list,
        if negb (ret_code run =? 0) then inl (Stop "failed to process audio" [])
        else inr (assemble (ctx_after run) params' path token_timestamps duration offset,
                  ctx_after run))).
Proof.
  intros params call.
  destruct (Z.eq_dec (whisper_lang_id eng language) (-1)) as [Hl|Hl].
  - left. eexists. split; [|left; split; [exact Hl|reflexivity]].
    apply call_unknown_language, Hl.
  - subst call. rewrite call_known_language by exact Hl. fold params.
    destruct (result_of (load_wav eng params path)) as [e|[pcmf32 pcmf32s]] eqn:Hload.
    + left. exists e. split; [|right; split; [exact Hl | reflexivity]].
      rewrite (process_file_fails eng token_timestamps trace params model path e Hload).
      reflexivity.
    + right. exists pcmf32, pcmf32s. split; [exact Hl|]. split; [reflexivity|].
      intros params' wparams run.
      rewrite (process_file_runs eng token_timestamps trace params model path
                 pcmf32 pcmf32s Hload).
      fold params'. fold wparams. fold run.
      unfold bind. destruct (negb (ret_code run =? 0)).
      * reflexivity.
      * cbn [ret fst snd]. rewrite app_nil_r. reflexivity.
Qed.

(** ** Validation of the audio *)

Section Validation.

Variable eng : engine.

Lemma load_wav_rejects params path wav :
  Params.diarize params = false ->
  drwav_init_file eng path = Some wav ->
  (Wav.channels wav <> 1 /\ Wav.channels wav <> 2)
  \/ Wav.sampleRate wav <> 16000
  \/ Wav.bitsPerSample wav <> 16 ->
  exists fmt,
    In fmt [msg_channels; msg_rate; msg_bits] /\
    result_of (load_wav eng params path) = inl (Stop fmt [path]).
Proof.
  intros Hd Hw Hbad. unfold load_wav. rewrite Hw, Hd.
  unfold WHISPER_SAMPLE_RATE. cbn [andb].
  destruct (Z.eqb_spec (Wav.channels wav) 1) as [C1|C1];
    destruct (Z.eqb_spec (Wav.channels wav) 2) as [C2|C2];
    destruct (Z.eqb_spec (Wav.sampleRate wav) 16000) as [R|R];
    destruct (Z.eqb_spec (Wav.bitsPerSample wav) 16) as [B|B];
    cbn [negb andb];
    try (exists msg_channels; split; [simpl; tauto | reflexivity]);
    try (exists msg_rate; split; [simpl; tauto | reflexivity]);
    try (exists msg_bits; split; [simpl; tauto | reflexivity]);
    exfalso; tauto.
Qed.

(** With diarization off, the stereo buffers stay empty and the stereo
    requirement of diarization is never the reason of a failure. *)
Lemma load_wav_without_diarize params path :
  Params.diarize params = false ->
  (forall pcmf32 pcmf32s,
      result_of (load_wav eng params path) = inr (pcmf32, pcmf32s) -> pcmf32s = [])
  /\ (forall args, result_of (load_wav eng params path) <> inl (Stop msg_diarize args)).
Proof.
  intros Hd. unfold load_wav. rewrite Hd. cbn [andb].
  destruct (drwav_init_file eng path) as [wav|].
  - repeat match goal with
           | |- context [if ?b then _ else _] => destruct b
           end;
      (split; [intros ? ? H; cbn in H; congruence
              | intros args H; cbn in H; inversion H]).
  - split; [intros ? ? H; cbn in H; congruence
           | intros args H; cbn in H; inversion H].
Qed.

End Validation.

(** When the file opens as a WAV whose channel count is not 1 or 2, or
    whose rate is not 16 kHz, or whose depth is not 16 bit,
    [whisper_encode] stops with an error and [whisper_full_parallel] is never
    called; when the language code is one the engine knows, that error is
    one of the three format stops, each handed the file name as an argument.
    (An unknown language code stops the call earlier, with "Unknown
    language".) *)
Lemma invalid_wav_is_rejected (eng : engine) (model : whisper_context)
  (path language : string) (token_timestamps translate print_special : bool)
  (duration offset : Z) (trace : bool) (n_threads n_processors : Z) (wav : drwav) :
  drwav_init_file eng path = Some wav ->
  (Wav.channels wav <> 1 /\ Wav.channels wav <> 2)
  \/ Wav.sampleRate wav <> 16000
  \/ Wav.bitsPerSample wav <> 16 ->
  let call :=
    whisper_encode eng model path language token_timestamps translate print_special
                   duration offset trace n_threads n_processors in
  engine_invoked call = false
  /\ (exists e, result_of call = inl e)
  /\ (whisper_lang_id eng language <> -1 ->
      exists fmt,
        In fmt [msg_channels; msg_rate; msg_bits] /\
        result_of call = inl (Stop fmt [path])).
Proof.
  intros Hw Hbad call.
  pose proof (call_outcome eng model path language token_timestamps translate
                print_special duration offset trace n_threads n_processors) as H.
  cbv zeta in H. fold call in H.
  set (params := encode_params eng path language translate print_special duration
                   offset n_threads n_processors) in *.
  destruct (load_wav_rejects eng params path wav eq_refl Hw Hbad) as (fmt & Hin & Hres).
  destruct H as [(e & Hcall & Hwhy) | (pcmf32 & pcmf32s & _ & Hload & _)].
  - rewrite Hcall. split; [reflexivity|]. split; [exists e; reflexivity|].
    intros Hl. exists fmt. split; [exact Hin|].
    destruct Hwhy as [[Hl' _]|[_ He]]; [contradiction|].
    cbn [result_of snd]. congruence.
  - congruence.
Qed.

(** With an unknown language code the call stops at the language check,
    before the file is opened. *)
Lemma unknown_language_comes_first :
  drwav_init_file Demo.eng "surround.wav" = Some (Demo.wav 3 16000 16 [1; 2; 3]) /\
  whisper_encode Demo.eng Demo.english_model "surround.wav" "xx" false false false
                 0 0 false 1 1
  = ([], inl (Stop "Unknown language" [])).
Proof. split; vm_compute; reflexivity. Qed.

(** ** The message of a format stop *)

Section StopMessage.

(** A format with the specifier puts the argument into the message. *)
Lemma render_format_names_the_argument (strict : bool) :
  render_format strict "WAV file must be 16 kHz: %s" ["cd.wav"]
  = Rendered "WAV file must be 16 kHz: cd.wav"
  /\ mentions (Rendered "WAV file must be 16 kHz: cd.wav") "cd.wav" = true.
Proof. destruct strict; split; reflexivity. Qed.

(** The three formats have no conversion specifier: whatever the file is
    called, its name is not part of what is rendered. *)
Lemma format_stops_drop_the_argument (strict : bool) (fmt path : string) :
  In fmt [msg_channels; msg_rate; msg_bits] ->
  render_stop strict (Stop fmt [path])
  = if strict then FormatError else Rendered fmt.
Proof.
  intros [<-|[<-|[<-|[]]]]; destruct strict; reflexivity.
Qed.

End StopMessage.

(** C1, at inputs where the error does not name the file. A WAV with 3
    channels, one at 44.1 kHz and one of 8 bit are each rejected before
    [whisper_full_parallel] is called, but the file name is handed to the
    printf-style [Rcpp::stop] next to a format that has no conversion
    specifier: what is rendered is the bare format, or a formatting error in
    its place, and the name of the file is in neither. *)
Theorem invalid_wav_error_omits_the_file (strict : bool) :
  let encode path :=
    whisper_encode Demo.eng Demo.english_model path "en" false false false
                   0 0 false 1 1 in
  (drwav_init_file Demo.eng "surround.wav" = Some (Demo.wav 3 16000 16 [1; 2; 3]) /\
   engine_invoked (encode "surround.wav") = false /\
   result_of (encode "surround.wav")
   = inl (Stop "WAV file must be mono or stereo: " ["surround.wav"]) /\
   render_stop strict (Stop "WAV file must be mono or stereo: " ["surround.wav"])
   = (if strict then FormatError else Rendered "WAV file must be mono or stereo: ") /\
   mentions (render_stop strict (Stop "WAV file must be mono or stereo: " ["surround.wav"]))
            "surround.wav" = false)
  /\
  (drwav_init_file Demo.eng "cd.wav" = Some (Demo.wav 2 44100 16 [1; 2]) /\
   engine_invoked (encode "cd.wav") = false /\
   result_of (encode "cd.wav") = inl (Stop "WAV file must be 16 kHz: " ["cd.wav"]) /\
   render_stop strict (Stop "WAV file must be 16 kHz: " ["cd.wav"])
   = (if strict then FormatError else Rendered "WAV file must be 16 kHz: ") /\
   mentions (render_stop strict (Stop "WAV file must be 16 kHz: " ["cd.wav"]))
            "cd.wav" = false)
  /\
  (drwav_init_file Demo.eng "eight.wav" = Some (Demo.wav 1 16000 8 [1; 2]) /\
   engine_invoked (encode "eight.wav") = false /\
   result_of (encode "eight.wav") = inl (Stop "WAV file must be 16 bit: " ["eight.wav"]) /\
   render_stop strict (Stop "WAV file must be 16 bit: " ["eight.wav"])
   = (if strict then FormatError else Rendered "WAV file must be 16 bit: ") /\
   mentions (render_stop strict (Stop "WAV file must be 16 bit: " ["eight.wav"]))
            "eight.wav" = false).
Proof.
  intros encode. subst encode.
  destruct strict;
    refine (conj (conj _ (conj _ (conj _ (conj _ _))))
            (conj (conj _ (conj _ (conj _ (conj _ _))))
                  (conj _ (conj _ (conj _ (conj _ _))))));
    vm_compute; reflexivity.
Qed.

(** ** What the callback prints *)

Section Callback.

Lemma speaker_printed_line a b c d :
  speaker_printed (Rprintf ("[%s --> %s]  %s%s" ++ NL) [a; b; c; d]) = Some c.
Proof. reflexivity. Qed.

Lemma speaker_printed_colored a b c d :
  speaker_printed (Rprintf "%s%s%s%s" [a; b; c; d]) = Some a.
Proof. reflexivity. Qed.

Lemma segment_speaker_off params pcmf32s t0 t1 :
  Params.diarize params = false -> segment_speaker params pcmf32s t0 t1 = "".
Proof. intros H. unfold segment_speaker. rewrite H. reflexivity. Qed.

Lemma colored_tokens_no_speaker ud ctx i e :
  In e (print_colored_tokens (ud_params ud) ctx i "%s%s%s" []) -> from_callback ud e.
Proof.
  unfold print_colored_tokens. rewrite in_flat_map. intros (j & _ & Hin).
  destruct (_ && _); [destruct Hin|].
  destruct Hin as [<-|[]]. split; [reflexivity|]. intros s H. discriminate H.
Qed.

Lemma colored_tokens_speaker ud ctx i t0 t1 e :
  In e (print_colored_tokens (ud_params ud) ctx i "%s%s%s%s"
          [segment_speaker (ud_params ud) (ud_pcmf32s ud) t0 t1]) ->
  from_callback ud e.
Proof.
  unfold print_colored_tokens. rewrite in_flat_map. intros (j & _ & Hin).
  destruct (_ && _); [destruct Hin|].
  destruct Hin as [<-|[]]. split; [reflexivity|].
  cbn [app]. rewrite speaker_printed_colored. intros s [= <-]. eauto.
Qed.

Lemma callback_events ctx n_new ud e :
  In e (whisper_print_segment_callback ctx n_new ud) -> from_callback ud e.
Proof.
  unfold whisper_print_segment_callback. rewrite in_app_iff, in_flat_map.
  intros [Hin | (i & _ & Hin)].
  - destruct (_ =? 0); [|destruct Hin].
    destruct Hin as [<-|[]]. split; [reflexivity|]. intros s H. discriminate H.
  - destruct (Params.no_timestamps (ud_params ud)).
    + rewrite in_app_iff in Hin. destruct Hin as [Hin|[<-|[]]].
      * destruct (Params.print_colors (ud_params ud)).
        -- eapply colored_tokens_no_speaker, Hin.
        -- destruct Hin as [<-|[]]. split; [reflexivity|]. intros s H. discriminate H.
      * split; [reflexivity|]. intros s H. discriminate H.
    + destruct (Params.print_colors (ud_params ud)).
      * destruct Hin as [<-|Hin].
        -- split; [reflexivity|]. intros s H. discriminate H.
        -- rewrite in_app_iff in Hin. destruct Hin as [Hin|[<-|[]]].
           ++ eapply colored_tokens_speaker, Hin.
           ++ split; [reflexivity|]. intros s H. discriminate H.
      * destruct Hin as [<-|[]]. split; [reflexivity|].
        rewrite speaker_printed_line. intros s [= <-]. eauto.
Qed.

Lemma callback_output_events wparams run e :
  In e (callback_output wparams run) ->
  exists ud, WParams.new_segment_callback wparams = Some ud /\ from_callback ud e.
Proof.
  unfold callback_output.
  destruct (WParams.new_segment_callback wparams) as [ud|]; [|intros []].
  rewrite in_flat_map. intros ([ctx n_new] & _ & Hin).
  exists ud. split; [reflexivity|]. eapply callback_events, Hin.
Qed.

Lemma installed_callback defaults params pcmf32s token_timestamps trace ud :
  WParams.new_segment_callback
    (inference_params defaults params pcmf32s token_timestamps trace) = Some ud ->
  ud = {| ud_params := params; ud_pcmf32s := pcmf32s |}.
Proof. destruct trace; cbn; congruence. Qed.

End Callback.

(** ** The configuration handed to the engine *)

(** C9. The [token_timestamps] of the configuration passed to the engine is
    the argument of the caller, whatever [output_wts] and [max_len] hold:
    this is so for the configuration built from any parameter record, and
    for every call of the engine that [whisper_encode] makes. *)
Theorem token_timestamps_is_the_argument (eng : engine) (model : whisper_context)
  (path language : string) (token_timestamps translate print_special : bool)
  (duration offset : Z) (trace : bool) (n_threads n_processors : Z) :
  (forall defaults params pcmf32s,
      WParams.token_timestamps
        (inference_params defaults params pcmf32s token_timestamps trace)
      = token_timestamps)
  /\ (forall wparams samples n,
         In (FullParallel wparams samples n)
            (trace_of (whisper_encode eng model path language token_timestamps
                         translate print_special duration offset trace
                         n_threads n_processors)) ->
         WParams.token_timestamps wparams = token_timestamps).
Proof.
  split; [reflexivity|].
  intros wparams samples n Hin.
  pose proof (call_outcome eng model path language token_timestamps translate
                print_special duration offset trace n_threads n_processors) as H.
  cbv zeta in H.
  destruct H as [(e & Hcall & _) | (pcmf32 & pcmf32s & _ & _ & Hcall)];
    rewrite Hcall in Hin; cbn [trace_of fst] in Hin; [destruct Hin|].
  rewrite in_app_iff in Hin. destruct Hin as [Hin|[Hin|[Hin|Hin]]].
  - unfold fallback_warnings in Hin. destruct (fallback_applies _ _); [|destruct Hin].
    destruct Hin as [Hin|[]]. discriminate Hin.
  - discriminate Hin.
  - injection Hin as <- _ _. reflexivity.
  - apply callback_output_events in Hin. destruct Hin as (ud & _ & Hno & _).
    discriminate Hno.
Qed.

Lemma token_timestamps_is_the_argument_witness :
  exists wparams samples n,
    In (FullParallel wparams samples n)
       (trace_of (whisper_encode Demo.eng Demo.english_model "mono.wav" "en" true
                    false false 0 0 false 1 1))
    /\ WParams.token_timestamps wparams = true.
Proof.
  assert (Hin : exists wparams samples n,
             In (FullParallel wparams samples n)
                (trace_of (whisper_encode Demo.eng Demo.english_model "mono.wav" "en"
                             true false false 0 0 false 1 1))).
  { vm_compute. do 3 eexists. right. left. reflexivity. }
  destruct Hin as (wparams & samples & n & Hin).
  exists wparams, samples, n. split; [exact Hin|].
  exact (proj2 (token_timestamps_is_the_argument Demo.eng Demo.english_model
                  "mono.wav" "en" true false false 0 0 false 1 1)
               wparams samples n Hin).
Defined.

(** ** The returned list *)

Section Returned.

Lemma assemble_params ctx params path token_timestamps duration offset :
  Output.params (assemble ctx params path token_timestamps duration offset)
  = {| ParamsList.audio := path;
       ParamsList.language := Params.language params;
       ParamsList.offset := offset;
       ParamsList.duration := duration;
       ParamsList.translate := Params.translate params;
       ParamsList.token_timestamps := token_timestamps;
       ParamsList.word_threshold := Params.word_thold params |}.
Proof. unfold assemble. destruct (collect _ _ _). reflexivity. Qed.

Lemma assemble_tokens ctx params path token_timestamps duration offset :
  Output.tokens (assemble ctx params path token_timestamps duration offset)
  = tokens_frame (snd (collect ctx (Params.print_special params) token_timestamps))
                 token_timestamps.
Proof. unfold assemble. destruct (collect _ _ _). reflexivity. Qed.

(** A call that returns ran the engine once, with success, and its list is
    assembled from the context the engine left and the effective
    parameters. *)
Lemma returned_call (eng : engine) (model : whisper_context) (path language : string)
  (token_timestamps translate print_special : bool) (duration offset : Z)
  (trace : bool) (n_threads n_processors : Z) tr out ctx' :
  whisper_encode eng model path language token_timestamps translate print_special
                 duration offset trace n_threads n_processors
  = (tr, inr (out, ctx')) ->
  let params :=
    encode_params eng path language translate print_special duration offset
                  n_threads n_processors in
  out = assemble ctx' (effective_params model params) path token_timestamps
                 duration offset
  /\ (forall e, In e (fallback_warnings model params) -> In e tr).
Proof.
  intros Hret params.
  pose proof (call_outcome eng model path language token_timestamps translate
                print_special duration offset trace n_threads n_processors) as H.
  cbv zeta in H. fold params in H. rewrite Hret in H.
  destruct H as [(e & Hcall & _) | (pcmf32 & pcmf32s & _ & _ & Hcall)];
    [discriminate Hcall|].
  destruct (negb _); [discriminate Hcall|].
  injection Hcall as -> -> ->.
  split; [reflexivity|].
  intros e He. apply in_or_app. left. exact He.
Qed.

End Returned.

(** C2. For a call that returns: when the model is not multilingual and the
    caller passed a language other than "en" or asked for translation, the
    warning is emitted and the returned parameters report the language "en"
    and no translation; when the model is multilingual, or the caller passed
    "en" without translation, the returned parameters echo the language and
    the translate flag of the caller. *)
Theorem language_fallback_is_reported (eng : engine) (model : whisper_context)
  (path language : string) (token_timestamps translate print_special : bool)
  (duration offset : Z) (trace : bool) (n_threads n_processors : Z)
  (tr : list event) (out : Output.t) (ctx' : whisper_context) :
  whisper_encode eng model path language token_timestamps translate print_special
                 duration offset trace n_threads n_processors
  = (tr, inr (out, ctx')) ->
  (whisper_is_multilingual model = 0 ->
   language <> "en" \/ translate = true ->
   In (Rwarning msg_not_multilingual) tr
   /\ ParamsList.language (Output.params out) = "en"
   /\ ParamsList.translate (Output.params out) = false)
  /\
  (whisper_is_multilingual model <> 0 \/ (language = "en" /\ translate = false) ->
   ParamsList.language (Output.params out) = language
   /\ ParamsList.translate (Output.params out) = translate).
Proof.
  intros Hret.
  destruct (returned_call _ _ _ _ _ _ _ _ _ _ _ _ _ _ _ Hret) as [-> Hwarn].
  rewrite assemble_params. cbn [ParamsList.language ParamsList.translate].
  set (params := encode_params eng path language translate print_special duration
                   offset n_threads n_processors) in *.
  assert (Hf : fallback_applies model params
               = (whisper_is_multilingual model =? 0)
                 && (negb (String.eqb language "en") || translate)) by reflexivity.
  unfold fallback_warnings, effective_params in *. rewrite Hf in *. clear Hf.
  split.
  - intros Hm Hreq. apply Z.eqb_eq in Hm. rewrite Hm in *.
    assert (Hc : negb (String.eqb language "en") || translate = true).
    { destruct Hreq as [Hl| ->]; [|apply orb_true_r].
      apply String.eqb_neq in Hl. rewrite Hl. reflexivity. }
    rewrite Hc in *. cbn [andb] in *.
    split; [apply Hwarn; left; reflexivity|]. split; reflexivity.
  - intros [Hm|[-> ->]].
    + apply Z.eqb_neq in Hm. rewrite Hm. cbn [andb]. split; reflexivity.
    + rewrite andb_false_r. split; reflexivity.
Qed.

Lemma language_fallback_is_reported_witness :
  exists tr out ctx',
    whisper_encode Demo.eng Demo.english_model "mono.wav" "nl" false true false
                   0 0 false 1 1 = (tr, inr (out, ctx'))
    /\ In (Rwarning msg_not_multilingual) tr
    /\ ParamsList.language (Output.params out) = "en"
    /\ ParamsList.translate (Output.params out) = false.
Proof.
  assert (Hret : exists tr out ctx',
             whisper_encode Demo.eng Demo.english_model "mono.wav" "nl" false true
                            false 0 0 false 1 1 = (tr, inr (out, ctx'))).
  { vm_compute. do 3 eexists. reflexivity. }
  destruct Hret as (tr & out & ctx' & Hret).
  exists tr, out, ctx'. split; [exact Hret|].
  apply (proj1 (language_fallback_is_reported Demo.eng Demo.english_model "mono.wav"
                  "nl" false true false 0 0 false 1 1 tr out ctx' Hret)).
  - reflexivity.
  - left. discriminate.
Defined.

(** ** The token table *)

Section TokenTable.

Variable ctx : whisper_context.
Variables (print_special token_timestamps : bool).

Lemma push_rows_nil v : push_rows token_timestamps v [] = v.
Proof.
  destruct v as [nr tx pr fr to]. unfold push_rows.
  cbn [token_segment_nr token_segment_text token_segment_probability
       token_segment_from token_segment_to map].
  rewrite !app_nil_r. destruct token_timestamps; reflexivity.
Qed.

Lemma push_rows_app v a b :
  push_rows token_timestamps (push_rows token_timestamps v a) b
  = push_rows token_timestamps v (a ++ b)%list.
Proof.
  unfold push_rows.
  cbn [token_segment_nr token_segment_text token_segment_probability
       token_segment_from token_segment_to].
  destruct token_timestamps; f_equal; rewrite map_app; symmetry; apply app_assoc.
Qed.

Lemma fold_left_ext {A B} (f g : A -> B -> A) (l : list B) (a : A) :
  (forall a b, f a b = g a b) -> fold_left f l a = fold_left g l a.
Proof.
  intros H. revert a. induction l as [|b l IH]; intros a; [reflexivity|].
  cbn [fold_left]. rewrite H. apply IH.
Qed.

Lemma range_cons lo hi : lo < hi -> range lo hi = lo :: range (lo + 1) hi.
Proof.
  intros H. unfold range.
  replace (Z.to_nat (hi - lo)) with (S (Z.to_nat (hi - (lo + 1)))) by lia.
  cbn [seq map]. f_equal; [lia|].
  rewrite <- seq_shift, map_map. apply map_ext. intros k. lia.
Qed.

Lemma range_reads_list {A} (d : A) (l : list A) :
  map (fun j => at_index l j d) (range 0 (Z.of_nat (List.length l))) = l.
Proof.
  unfold range. rewrite map_map, Z.sub_0_r, Nat2Z.id.
  transitivity (firstn (List.length l) (skipn 0 l));
    [|cbn [skipn]; apply firstn_all].
  rewrite (firstn_skipn_nth d l (List.length l) 0) by lia.
  apply map_ext. intros k. unfold at_index.
  destruct (Z.ltb_spec (0 + Z.of_nat k) 0) as [Hneg|_]; [lia|].
  f_equal. lia.
Qed.

(** One turn of the token loop, on the token itself. *)
Lemma collect_token_row i v j :
  collect_token ctx print_special token_timestamps i v j
  = let tok := whisper_full_get_token_data ctx i j in
    if kept ctx print_special tok
    then push_rows token_timestamps v [(i + 1, tok)]
    else v.
Proof.
  unfold collect_token, kept, Spec.is_special, whisper_full_get_token_id,
    whisper_full_get_token_text, whisper_full_get_token_p.
  cbv zeta.
  destruct print_special; cbn [Bool.eqb andb orb negb];
    [|destruct (_ <=? _); cbn [negb]]; try reflexivity;
    unfold push_rows; cbn [map fst snd];
    destruct token_timestamps; reflexivity.
Qed.

Lemma token_loop i v :
  fold_left (collect_token ctx print_special token_timestamps i)
            (range 0 (whisper_full_n_tokens ctx i)) v
  = push_rows token_timestamps v
      (map (fun tok => (i + 1, tok))
           (filter (kept ctx print_special) (Segment.tokens (get_segment ctx i)))).
Proof.
  unfold whisper_full_n_tokens.
  set (toks := Segment.tokens (get_segment ctx i)).
  set (step := fun (v : token_vectors) (tok : whisper_token_data) =>
                 if kept ctx print_special tok
                 then push_rows token_timestamps v [(i + 1, tok)] else v).
  transitivity (fold_left step toks v).
  - rewrite <- (range_reads_list Token.none toks) at 2.
    rewrite <- (fold_left_map_arg step (fun j => at_index toks j Token.none)).
    apply fold_left_ext. intros v' j. apply collect_token_row.
  - clearbody toks. revert v.
    induction toks as [|tok toks IH]; intros v; cbn [fold_left filter map].
    + symmetry. apply push_rows_nil.
    + rewrite IH. unfold step.
      destruct (kept ctx print_special tok); cbn [map]; [|reflexivity].
      rewrite push_rows_app. reflexivity.
Qed.

Lemma segment_loop_tokens l acc :
  snd (fold_left (collect_segment ctx print_special token_timestamps) l acc)
  = fold_left
      (fun v i =>
         fold_left (collect_token ctx print_special token_timestamps i)
                   (range 0 (whisper_full_n_tokens ctx i)) v)
      l (snd acc).
Proof.
  revert acc. induction l as [|i l IH]; intros [s v]; [reflexivity|].
  cbn [fold_left]. rewrite IH. reflexivity.
Qed.

Lemma filter_numbered (k : Z) (toks : list whisper_token_data) :
  filter (fun r : Z * whisper_token_data => kept ctx print_special (snd r))
         (map (fun tok => (k, tok)) toks)
  = map (fun tok => (k, tok)) (filter (kept ctx print_special) toks).
Proof.
  induction toks as [|tok toks IH]; [reflexivity|].
  cbn [map filter snd]. destruct (kept ctx print_special tok); cbn [map]; congruence.
Qed.

Lemma segment_loop_rows rest : forall pre v,
  Ctx.result_all ctx = (pre ++ rest)%list ->
  let k := Z.of_nat (List.length pre) in
  fold_left
    (fun v i =>
       fold_left (collect_token ctx print_special token_timestamps i)
                 (range 0 (whisper_full_n_tokens ctx i)) v)
    (range k (k + Z.of_nat (List.length rest))) v
  = push_rows token_timestamps v
      (filter (fun r => kept ctx print_special (snd r))
              (Spec.numbered_tokens (k + 1) rest)).
Proof.
  induction rest as [|seg rest IH]; intros pre v Hsegs k.
  - cbn [List.length Spec.numbered_tokens filter]. rewrite Z.add_0_r.
    unfold range. rewrite Z.sub_diag. cbn. symmetry. apply push_rows_nil.
  - rewrite range_cons by (cbn [List.length]; lia).
    cbn [fold_left Spec.numbered_tokens]. rewrite token_loop.
    assert (Hseg : get_segment ctx k = seg).
    { unfold get_segment, at_index. rewrite Hsegs.
      destruct (Z.ltb_spec k 0) as [Hneg|_]; [unfold k in Hneg; lia|].
      unfold k. rewrite Nat2Z.id. apply nth_middle. }
    rewrite Hseg.
    specialize (IH (pre ++ [seg])%list
                   (push_rows token_timestamps v
                      (map (fun tok => (k + 1, tok))
                           (filter (kept ctx print_special) (Segment.tokens seg))))).
    rewrite <- app_assoc in IH. specialize (IH Hsegs). cbv zeta in IH.
    rewrite length_app in IH. cbn [List.length] in IH.
    replace (Z.of_nat (List.length pre + 1)) with (k + 1) in IH by (unfold k; lia).
    replace (k + Z.of_nat (List.length (seg :: rest)))
      with (k + 1 + Z.of_nat (List.length rest)) by (cbn [List.length]; lia).
    rewrite IH, push_rows_app, filter_app, filter_numbered. reflexivity.
Qed.

(** The token vectors after the loops hold one row per kept token. *)
Lemma collect_rows :
  snd (collect ctx print_special token_timestamps)
  = push_rows token_timestamps no_tokens (Spec.rows ctx print_special).
Proof.
  unfold collect. rewrite segment_loop_tokens. cbn [snd].
  unfold whisper_full_n_segments.
  pose proof (segment_loop_rows (Ctx.result_all ctx) [] no_tokens eq_refl) as H.
  cbv zeta in H. cbn [List.length Z.of_nat Z.add] in H.
  rewrite H. reflexivity.
Qed.

End TokenTable.

(** C3. For the list a call returns, with the context the engine left:
    the token table has one row per kept token, in emission order. With
    [print_special] false the kept tokens are exactly those whose id is
    below the end-of-text id, so a token at or above it has no row; with
    [print_special] true every token is kept. With [token_timestamps] true
    the table has the columns [token_from] and [token_to], holding the
    formatted [t0] and [t1] of each kept token; with [token_timestamps]
    false it has neither column. *)
Theorem token_table_rows (eng : engine) (model : whisper_context)
  (path language : string) (token_timestamps translate print_special : bool)
  (duration offset : Z) (trace : bool) (n_threads n_processors : Z)
  (tr : list event) (out : Output.t) (ctx' : whisper_context) :
  whisper_encode eng model path language token_timestamps translate print_special
                 duration offset trace n_threads n_processors
  = (tr, inr (out, ctx')) ->
  let table := Output.tokens out in
  let rows := Spec.rows ctx' print_special in
  TokensFrame.segment table = map fst rows
  /\ TokensFrame.token table = map (fun r => Token.text (snd r)) rows
  /\ TokensFrame.token_prob table = map (fun r => Token.p (snd r)) rows
  /\ (print_special = false ->
      rows = filter (fun r => Token.id (snd r) <? whisper_token_eot ctx')
                    (Spec.all_tokens ctx'))
  /\ (print_special = true -> rows = Spec.all_tokens ctx')
  /\ (token_timestamps = true ->
      TokensFrame.token_from table
      = Some (map (fun r => to_timestamp (Token.t0 (snd r)) false) rows)
      /\ TokensFrame.token_to table
         = Some (map (fun r => to_timestamp (Token.t1 (snd r)) false) rows))
  /\ (token_timestamps = false ->
      TokensFrame.token_from table = None /\ TokensFrame.token_to table = None).
Proof.
  intros Hret table rows.
  destruct (returned_call _ _ _ _ _ _ _ _ _ _ _ _ _ _ _ Hret) as [Hout _].
  assert (Htable : table
                   = tokens_frame
                       (push_rows token_timestamps no_tokens rows) token_timestamps).
  { unfold table. rewrite Hout, assemble_tokens, collect_rows.
    unfold effective_params. destruct (fallback_applies _ _); reflexivity. }
  rewrite Htable. clear Htable Hout Hret.
  refine (conj _ (conj _ (conj _ (conj _ (conj _ (conj _ _)))))).
  - destruct token_timestamps; reflexivity.
  - destruct token_timestamps; reflexivity.
  - destruct token_timestamps; reflexivity.
  - intros ->. unfold rows, Spec.rows. apply filter_ext. intros [k tok].
    unfold Spec.is_special. cbn [orb snd]. rewrite Z.ltb_antisym. reflexivity.
  - intros ->. unfold rows, Spec.rows. cbn [orb].
    induction (Spec.all_tokens ctx') as [|r l IH]; [reflexivity|].
    cbn [filter]. rewrite IH. reflexivity.
  - intros ->. split; reflexivity.
  - intros ->. split; reflexivity.
Qed.

Lemma token_table_rows_witness :
  exists tr out ctx',
    whisper_encode Demo.eng Demo.english_model "mono.wav" "en" true false false
                   0 0 false 1 1 = (tr, inr (out, ctx'))
    /\ TokensFrame.token (Output.tokens out) = [" Hello"; " world"; " Bye"]
    /\ TokensFrame.token_from (Output.tokens out)
       = Some ["00:00:00.100"; "00:00:01.200"; "00:00:05.200"].
Proof.
  assert (Hret : exists tr out ctx',
             whisper_encode Demo.eng Demo.english_model "mono.wav" "en" true false
                            false 0 0 false 1 1 = (tr, inr (out, ctx')) /\
             ctx' = ctx_after (Demo.run Demo.english_model
                                 (inference_params Demo.defaults
                                    (Params.default 8) [] true false) [] 1)).
  { vm_compute. do 3 eexists. split; reflexivity. }
  destruct Hret as (tr & out & ctx' & Hret & Hctx).
  exists tr, out, ctx'. split; [exact Hret|].
  destruct (token_table_rows Demo.eng Demo.english_model "mono.wav" "en" true false
              false 0 0 false 1 1 tr out ctx' Hret)
    as (_ & Htok & _ & _ & _ & Hts & _).
  destruct (Hts eq_refl) as [Hfrom _].
  rewrite Htok, Hfrom, Hctx. split; vm_compute; reflexivity.
Defined.

(** ** The segment table *)

Section SegmentTable.

Variable ctx : whisper_context.
Variables (print_special token_timestamps : bool).

Lemma assign_middle {A} (a b : list A) (y x : A) :
  assign (a ++ y :: b) (List.length a) x = (a ++ x :: b)%list.
Proof.
  induction a as [|z a IH]; [reflexivity|].
  cbn [app List.length assign]. f_equal. exact IH.
Qed.

(** Assigning the entries one index after the other fills the vector. *)
Lemma assign_loop {A} (g : Z -> A) (d : A) (m : nat) : forall pre,
  let k := Z.of_nat (List.length pre) in
  fold_left (fun c i => assign c (Z.to_nat i) (g i))
            (range k (k + Z.of_nat m)) (pre ++ repeat d m)%list
  = (pre ++ map g (range k (k + Z.of_nat m)))%list.
Proof.
  induction m as [|m IH]; intros pre k.
  - unfold range. replace (Z.to_nat (k + Z.of_nat 0 - k)) with 0%nat by lia.
    reflexivity.
  - rewrite range_cons by lia. cbn [fold_left repeat map].
    replace (Z.to_nat k) with (List.length pre) by (unfold k; lia).
  rewrite assign_middle.
    specialize (IH (pre ++ [g k])%list). cbv zeta in IH.
    rewrite length_app in IH. cbn [List.length] in IH.
    replace (Z.of_nat (List.length pre + 1)) with (k + 1) in IH by (unfold k; lia).
    replace (k + Z.of_nat (S m)) with (k + 1 + Z.of_nat m) by lia.
    rewrite <- !app_assoc in IH. cbn [app] in IH. exact IH.
Qed.

Lemma segment_loop_segments l acc :
  fst (fold_left (collect_segment ctx print_special token_timestamps) l acc)
  = fold_left (record_segment ctx) l (fst acc).
Proof.
  revert acc. induction l as [|i l IH]; intros [s v]; [reflexivity|].
  cbn [fold_left]. rewrite IH. reflexivity.
Qed.

Lemma transcriptions_loop l s :
  transcriptions (fold_left (record_segment ctx) l s)
  = fold_left (fun c i => assign c (Z.to_nat i) (whisper_full_get_segment_text ctx i))
              l (transcriptions s).
Proof.
  revert s. induction l as [|i l IH]; intros s; [reflexivity|].
  cbn [fold_left]. rewrite IH. reflexivity.
Qed.

(** The text column after the loop is the text of the segments. *)
Lemma segment_texts :
  transcriptions (fst (collect ctx print_special token_timestamps))
  = map Segment.text (Ctx.result_all ctx).
Proof.
  unfold collect. rewrite segment_loop_segments, transcriptions_loop.
  cbn [fst transcriptions]. unfold whisper_full_n_segments. rewrite Nat2Z.id.
  pose proof (assign_loop (whisper_full_get_segment_text ctx) ""
                (List.length (Ctx.result_all ctx)) []) as H.
  cbv zeta in H. cbn [List.length Z.of_nat Z.add app] in H. rewrite H.
  unfold whisper_full_get_segment_text, get_segment.
  rewrite <- (map_map (fun i => at_index (Ctx.result_all ctx) i Segment.none) Segment.text).
  rewrite range_reads_list. reflexivity.
Qed.

Lemma assemble_text params path duration offset :
  DataFrame.text
    (Output.data (assemble ctx params path token_timestamps duration offset))
  = transcriptions (fst (collect ctx (Params.print_special params) token_timestamps)).
Proof. unfold assemble. destruct (collect _ _ _). reflexivity. Qed.

End SegmentTable.

(** ** Diarization through [whisper_encode] *)

(** C10. Through [whisper_encode] the diarize option is never enabled:
    [params.diarize] is false after the arguments are copied and after the
    language fallback; the loader leaves the per-channel buffers empty and
    never fails on the stereo requirement of diarization; the user data the
    callback gets has diarize off and no channel buffers; every speaker
    string printed during the call is empty; and the text column of the
    returned segment table is the text of the engine's segments, with no
    label added. *)
Theorem diarize_is_never_enabled (eng : engine) (model : whisper_context)
  (path language : string) (token_timestamps translate print_special : bool)
  (duration offset : Z) (trace : bool) (n_threads n_processors : Z) :
  let params :=
    encode_params eng path language translate print_special duration offset
                  n_threads n_processors in
  let call :=
    whisper_encode eng model path language token_timestamps translate print_special
                   duration offset trace n_threads n_processors in
  Params.diarize params = false
  /\ Params.diarize (effective_params model params) = false
  /\ (forall pcmf32 pcmf32s,
         result_of (load_wav eng params path) = inr (pcmf32, pcmf32s) -> pcmf32s = [])
  /\ (forall args, result_of call <> inl (Stop msg_diarize args))
  /\ (forall wparams samples n ud,
         In (FullParallel wparams samples n) (trace_of call) ->
         WParams.new_segment_callback wparams = Some ud ->
         Params.diarize (ud_params ud) = false /\ ud_pcmf32s ud = [])
  /\ (forall e s, In e (trace_of call) -> speaker_printed e = Some s -> s = "")
  /\ (forall tr out ctx',
         call = (tr, inr (out, ctx')) ->
         DataFrame.text (Output.data out) = map Segment.text (Ctx.result_all ctx')).
Proof.
  intros params call.
  assert (Hd : Params.diarize params = false) by reflexivity.
  assert (Hd' : Params.diarize (effective_params model params) = false).
  { unfold effective_params. destruct (fallback_applies model params); reflexivity. }
  destruct (load_wav_without_diarize eng params path Hd) as [Hempty Hnot].
  pose proof (call_outcome eng model path language token_timestamps translate
                print_special duration offset trace n_threads n_processors) as H.
  cbv zeta in H. fold params in H. fold call in H.
  split; [exact Hd|]. split; [exact Hd'|]. split; [exact Hempty|].
  assert (Htext : forall tr out ctx',
             call = (tr, inr (out, ctx')) ->
             DataFrame.text (Output.data out) = map Segment.text (Ctx.result_all ctx')).
  { intros tr out ctx' Hret.
    destruct (returned_call _ _ _ _ _ _ _ _ _ _ _ _ _ _ _ Hret) as [-> _].
    rewrite assemble_text. apply segment_texts. }
  cut ((forall args, result_of call <> inl (Stop msg_diarize args))
       /\ (forall wparams samples n ud,
              In (FullParallel wparams samples n) (trace_of call) ->
              WParams.new_segment_callback wparams = Some ud ->
              Params.diarize (ud_params ud) = false /\ ud_pcmf32s ud = [])
       /\ (forall e s, In e (trace_of call) -> speaker_printed e = Some s -> s = "")).
  { intros (H1 & H2 & H3). auto. }
  clear Htext.
  destruct H as [(e & Hcall & Hwhy) | (pcmf32 & pcmf32s & _ & Hload & Hcall)];
    rewrite Hcall; cbn [trace_of result_of fst snd].
  - split; [|split; [intros ? ? ? ? []|intros ? ? []]].
    intros args Heq. injection Heq as ->.
    destruct Hwhy as [[_ Hu]|[_ Hl]]; [discriminate Hu|].
    exact (Hnot args Hl).
  - assert (Hs : pcmf32s = []) by (eapply Hempty, Hload). subst pcmf32s.
    split; [|split].
    + intros args Heq. destruct (negb _); discriminate Heq.
    + intros wparams samples n ud Hin Hcb.
      rewrite in_app_iff in Hin. destruct Hin as [Hin|[Hin|[Hin|Hin]]].
      * unfold fallback_warnings in Hin. destruct (fallback_applies _ _); [|destruct Hin].
        destruct Hin as [Hin|[]]. discriminate Hin.
      * discriminate Hin.
      * injection Hin as <- _ _. apply installed_callback in Hcb. subst ud.
        split; [exact Hd' | reflexivity].
      * apply callback_output_events in Hin. destruct Hin as (ud' & _ & Hno & _).
        discriminate Hno.
    + intros e s Hin Hsp.
      rewrite in_app_iff in Hin. destruct Hin as [Hin|[Hin|[Hin|Hin]]].
      * unfold fallback_warnings in Hin. destruct (fallback_applies _ _); [|destruct Hin].
        destruct Hin as [<-|[]]. discriminate Hsp.
      * subst e. discriminate Hsp.
      * subst e. discriminate Hsp.
      * apply callback_output_events in Hin. destruct Hin as (ud & Hcb & _ & Hlab).
        apply installed_callback in Hcb. subst ud.
        destruct (Hlab s Hsp) as (t0 & t1 & ->).
        apply segment_speaker_off. exact Hd'.
Qed.

Lemma diarize_is_never_enabled_witness :
  let call :=
    whisper_encode Demo.eng Demo.english_model "stereo.wav" "en" false false false
                   0 0 false 1 1 in
  let line :=
    Rprintf ("[%s --> %s]  %s%s" ++ NL)
            ["00:00:00.000"; "00:00:05.000"; ""; " Hello world"] in
  In line (trace_of call) /\ speaker_printed line = Some "" /\ "" = "".
Proof.
  intros call line.
  assert (Hin : In line (trace_of call)).
  { vm_compute. right. right. right. left. reflexivity. }
  assert (Hsp : speaker_printed line = Some "") by reflexivity.
  split; [exact Hin|]. split; [exact Hsp|].
  exact (proj1 (proj2 (proj2 (proj2 (proj2 (proj2
           (diarize_is_never_enabled Demo.eng Demo.english_model "stereo.wav" "en"
              false false false 0 0 false 1 1))))))
           line "" Hin Hsp).
Defined.

(** * Further properties of the binding *)

(** ** The formatter and its buffer *)

Section Buffer.

Lemma length_append (a b : string) :
  String.length (a ++ b) = (String.length a + String.length b)%nat.
Proof. induction a as [|c a IH]; cbn; [reflexivity | rewrite IH; reflexivity]. Qed.

Lemma length_zeros k : String.length (zeros k) = k.
Proof. induction k as [|k IH]; cbn; [reflexivity | rewrite IH; reflexivity]. Qed.

Lemma take_all k s : (String.length s <= k)%nat -> take k s = s.
Proof.
  revert k. induction s as [|c s IH]; intros k H.
  - destruct k; reflexivity.
  - destruct k as [|k]; cbn in H; [lia|]. cbn. rewrite IH by lia. reflexivity.
Qed.

(** A number below [10^k] has at most [k] digits. *)
Lemma dec_digits_length fuel : forall n k,
  (1 <= k <= fuel)%nat -> 0 <= n < 10 ^ Z.of_nat k ->
  (1 <= String.length (dec_digits fuel n) <= k)%nat.
Proof.
  induction fuel as [|fuel IH]; intros n k Hk Hn; [lia|].
  cbn [dec_digits]. destruct (Z.ltb_spec n 10) as [Hlt|Hge].
  - cbn. lia.
  - destruct k as [|[|k]]; [lia | cbn in Hn; lia |].
    rewrite length_append. cbn [String.length].
    assert (Hq : 0 <= n / 10 < 10 ^ Z.of_nat (S k)).
    { replace (Z.of_nat (S (S k))) with (Z.succ (Z.of_nat (S k))) in Hn by lia.
      rewrite Z.pow_succ_r in Hn by lia.
      split; [apply Z.div_pos; lia | apply Z.div_lt_upper_bound; lia]. }
    specialize (IH (n / 10) (S k) ltac:(lia) Hq). lia.
Qed.

(** ["%0<w>d"] fills its field, and exceeds it only by the digits (and the
    sign) it needs. *)
Lemma fmt_0d_length (w k : nat) (n : Z) :
  (1 <= k <= 10)%nat -> - 10 ^ Z.of_nat k < n < 10 ^ Z.of_nat k ->
  (w <= String.length (fmt_0d w n) <= Nat.max w (k + 1))%nat.
Proof.
  intros Hk Hn. unfold fmt_0d. destruct (Z.ltb_spec n 0) as [Hneg|Hpos].
  - pose proof (dec_digits_length 10 (- n) k Hk ltac:(lia)) as H.
    rewrite !length_append, length_zeros. cbn [String.length]. lia.
  - pose proof (dec_digits_length 10 n k Hk ltac:(lia)) as H.
    rewrite length_append, length_zeros. lia.
Qed.

Lemma int64_range x : - 2 ^ 63 <= int64 x < 2 ^ 63.
Proof.
  unfold int64, wrap.
  pose proof (Z.mod_pos_bound (x + 2 ^ (64 - 1)) (2 ^ 64)) as H. lia.
Qed.

Lemma int32_range x : INT_MIN <= int32 x <= INT_MAX.
Proof.
  unfold INT_MIN, INT_MAX, int32, wrap.
  pose proof (Z.mod_pos_bound (x + 2 ^ (32 - 1)) (2 ^ 32)) as H. lia.
Qed.

(** Whatever the 64-bit duration, the minutes, seconds and milliseconds the
    source peels off stay inside their natural ranges. *)
Lemma peel_bounds m0 :
  - 2 ^ 63 <= m0 < 2 ^ 63 ->
  let hr := Z.quot m0 (1000 * 60 * 60) in
  let m1 := int64 (m0 - hr * (1000 * 60 * 60)) in
  let min := Z.quot m1 (1000 * 60) in
  let m2 := int64 (m1 - min * (1000 * 60)) in
  let sec := Z.quot m2 1000 in
  let m3 := int64 (m2 - sec * 1000) in
  -60 < min < 60 /\ -60 < sec < 60 /\ -1000 < m3 < 1000.
Proof.
  intros Hm hr m1 min m2 sec m3.
  assert (H1 : m1 = Z.rem m0 3600000).
  { unfold m1, hr. rewrite int64_small by (Z.to_euclidean_division_equations; lia).
    Z.to_euclidean_division_equations; lia. }
  assert (B1 : -3600000 < m1 < 3600000).
  { rewrite H1. Z.to_euclidean_division_equations; lia. }
  assert (H2 : m2 = Z.rem m1 60000).
  { unfold m2, min. rewrite int64_small by (Z.to_euclidean_division_equations; lia).
    Z.to_euclidean_division_equations; lia. }
  assert (B2 : -60000 < m2 < 60000).
  { rewrite H2. Z.to_euclidean_division_equations; lia. }
  assert (H3 : m3 = Z.rem m2 1000).
  { unfold m3, sec. rewrite int64_small by (Z.to_euclidean_division_equations; lia).
    Z.to_euclidean_division_equations; lia. }
  split; [unfold min; Z.to_euclidean_division_equations; lia|].
  split; [unfold sec; Z.to_euclidean_division_equations; lia|].
  rewrite H3. Z.to_euclidean_division_equations; lia.
Qed.

End Buffer.

(** X1. For every tick count, in range or not, and either separator, the
    text [to_timestamp] formats has between 12 and 24 characters, so the
    32-byte buffer of [snprintf] never cuts it: the result is the seven
    pieces in full. *)
Theorem to_timestamp_fits_buffer (t : Z) (comma : bool) :
  to_timestamp t comma = String.concat "" (timestamp_pieces t comma)
  /\ (12 <= String.length (to_timestamp t comma) <= 24)%nat.
Proof.
  assert (Hlen : (12 <= String.length (String.concat "" (timestamp_pieces t comma)) <= 24)%nat).
  { unfold timestamp_pieces.
    pose proof (peel_bounds (int64 (t * 10)) (int64_range _)) as H. cbv zeta in H.
    destruct H as (Bmin & Bsec & Bms).
    set (hr := Z.quot (int64 (t * 10)) (1000 * 60 * 60)) in *.
    set (m1 := int64 (int64 (t * 10) - hr * (1000 * 60 * 60))) in *.
    set (min := Z.quot m1 (1000 * 60)) in *.
    set (m2 := int64 (m1 - min * (1000 * 60))) in *.
    set (sec := Z.quot m2 1000) in *.
    set (m3 := int64 (m2 - sec * 1000)) in *.
    pose proof (int32_range hr) as Bhr. unfold INT_MIN, INT_MAX in Bhr.
    pose proof (fmt_0d_length 2 10 (int32 hr) ltac:(lia) ltac:(cbn; lia)) as L1.
    rewrite (int32_small min) by (unfold INT_MIN, INT_MAX; lia).
    rewrite (int32_small sec) by (unfold INT_MIN, INT_MAX; lia).
    rewrite (int32_small m3) by (unfold INT_MIN, INT_MAX; lia).
    pose proof (fmt_0d_length 2 2 min ltac:(lia) ltac:(cbn; lia)) as L2.
    pose proof (fmt_0d_length 2 2 sec ltac:(lia) ltac:(cbn; lia)) as L3.
    pose proof (fmt_0d_length 3 3 m3 ltac:(lia) ltac:(cbn; lia)) as L4.
    cbn [String.concat]. rewrite !length_append.
    assert (Hsep : String.length (if comma then "," else ".") = 1%nat)
      by (destruct comma; reflexivity).
    rewrite Hsep. cbn [String.length]. lia. }
  assert (Heq : to_timestamp t comma = String.concat "" (timestamp_pieces t comma)).
  { change (to_timestamp t comma) with (snprintf 32 (timestamp_pieces t comma)).
    unfold snprintf. apply take_all. cbn [Nat.sub]. lia. }
  split; [exact Heq|]. rewrite Heq. exact Hlen.
Qed.

(** ** Timestamps below 100 hours: shape, injectivity, order *)

Section InRange.

(** The fields of a duration in range, as numbers. *)
Lemma fields_in_range (t : Z) :
  0 <= t -> Spec.milliseconds t < Spec.hundred_hours_ms ->
  let ms := t * 10 in
  0 <= ms / 3600000 < 100 /\ 0 <= (ms / 60000) mod 60 < 60 /\
  0 <= (ms / 1000) mod 60 < 60 /\ 0 <= ms mod 1000 < 1000 /\
  ms = ms / 3600000 * 3600000 + (ms / 60000) mod 60 * 60000
       + (ms / 1000) mod 60 * 1000 + ms mod 1000.
Proof.
  unfold Spec.milliseconds, Spec.hundred_hours_ms. intros H0 H1. cbv zeta.
  Z.to_euclidean_division_equations. lia.
Qed.

Lemma to_timestamp_in_range (t : Z) (comma : bool) :
  0 <= t -> Spec.milliseconds t < Spec.hundred_hours_ms ->
  let ms := t * 10 in
  to_timestamp t comma
  = Spec.two_digits (ms / 3600000) ++ ":" ++
    Spec.two_digits ((ms / 60000) mod 60) ++ ":" ++
    Spec.two_digits ((ms / 1000) mod 60) ++ (if comma then "," else ".") ++
    Spec.three_digits (ms mod 1000).
Proof.
  intros Ht Hlt.
  pose proof (fields_in_range t Ht Hlt) as (Bh & Bm & Bs & Br & _).
  unfold Spec.milliseconds in Hlt.
  assert (Hms : 0 <= t * 10 < Spec.hundred_hours_ms) by lia.
  pose proof (peel_fields (t * 10) Hms) as H. cbv zeta in H.
  destruct H as (Hhr & Hmin & Hsec & Hm3).
  cbv zeta. unfold to_timestamp.
  unfold Spec.hundred_hours_ms in *.
  rewrite (int64_small (t * 10)) by lia.
  rewrite Hm3, Hsec, Hmin, Hhr.
  rewrite !int32_small by (unfold INT_MIN, INT_MAX; lia).
  rewrite !fmt_0d_2_digits, fmt_0d_3_digits by lia.
  destruct comma; reflexivity.
Qed.

Lemma digit_inj a b : 0 <= a <= 9 -> 0 <= b <= 9 -> digit a = digit b -> a = b.
Proof.
  unfold digit. intros Ha Hb H. apply (f_equal nat_of_ascii) in H.
  rewrite !nat_ascii_embedding in H by lia. lia.
Qed.

Lemma two_digits_inj a b :
  0 <= a < 100 -> 0 <= b < 100 -> Spec.two_digits a = Spec.two_digits b -> a = b.
Proof.
  unfold Spec.two_digits. intros Ha Hb H. injection H as H1 H2.
  apply digit_inj in H1, H2; Z.to_euclidean_division_equations; lia.
Qed.

Lemma three_digits_inj a b :
  0 <= a < 1000 -> 0 <= b < 1000 -> Spec.three_digits a = Spec.three_digits b -> a = b.
Proof.
  unfold Spec.three_digits. intros Ha Hb H. injection H as H1 H2 H3.
  apply digit_inj in H1, H2, H3; Z.to_euclidean_division_equations; lia.
Qed.

(** Characters compare as the digits they show. *)
Lemma compare_digit a b :
  0 <= a <= 9 -> 0 <= b <= 9 -> Ascii.compare (digit a) (digit b) = (a ?= b).
Proof.
  intros Ha Hb.
  assert (Hall : forallb (fun x => forallb (fun y =>
             match Ascii.compare (digit (Z.of_nat x)) (digit (Z.of_nat y)),
                   (Z.of_nat x ?= Z.of_nat y) with
             | Eq, Eq | Lt, Lt | Gt, Gt => true
             | _, _ => false
             end) (seq 0 10)) (seq 0 10) = true) by (vm_compute; reflexivity).
  pose proof (proj1 (forallb_forall _ _) Hall (Z.to_nat a)
                ltac:(apply in_seq; lia)) as H1.
  pose proof (proj1 (forallb_forall _ _) H1 (Z.to_nat b)
                ltac:(apply in_seq; lia)) as H2.
  cbv beta in H2. rewrite !Z2Nat.id in H2 by lia.
  destruct (Ascii.compare _ _), (a ?= b); try discriminate H2; reflexivity.
Qed.

Lemma compare_cons_digit a b s s' :
  0 <= a <= 9 -> 0 <= b <= 9 ->
  String.compare (String (digit a) s) (String (digit b) s')
  = match a ?= b with Eq => String.compare s s' | c => c end.
Proof.
  intros Ha Hb. cbn [String.compare]. rewrite compare_digit by assumption.
  destruct (a ?= b); reflexivity.
Qed.

Lemma compare_cons_same c s s' :
  String.compare (String c s) (String c s') = String.compare s s'.
Proof.
  cbn [String.compare].
  assert (H : Ascii.compare c c = Eq) by (unfold Ascii.compare; apply N.compare_refl).
  rewrite H. reflexivity.
Qed.

End InRange.

(** X2. Below 100 hours the two variants of [to_timestamp] print the same
    four fields, of 2, 2, 2 and 3 characters, and differ only in the
    separator before the milliseconds: "." by default, "," when [comma] is
    set. *)
Theorem to_timestamp_separator (t : Z) :
  0 <= t -> Spec.milliseconds t < Spec.hundred_hours_ms ->
  exists hh mm ss mmm,
    String.length hh = 2%nat /\ String.length mm = 2%nat /\
    String.length ss = 2%nat /\ String.length mmm = 3%nat /\
    to_timestamp t false = hh ++ ":" ++ mm ++ ":" ++ ss ++ "." ++ mmm /\
    to_timestamp t true = hh ++ ":" ++ mm ++ ":" ++ ss ++ "," ++ mmm.
Proof.
  intros Ht Hlt.
  exists (Spec.two_digits (t * 10 / 3600000)),
         (Spec.two_digits ((t * 10 / 60000) mod 60)),
         (Spec.two_digits ((t * 10 / 1000) mod 60)),
         (Spec.three_digits ((t * 10) mod 1000)).
  rewrite !to_timestamp_in_range by assumption.
  repeat split; reflexivity.
Qed.

Lemma to_timestamp_separator_witness :
  0 <= 8130 /\ Spec.milliseconds 8130 < Spec.hundred_hours_ms /\
  exists hh mm ss mmm,
    String.length hh = 2%nat /\ String.length mm = 2%nat /\
    String.length ss = 2%nat /\ String.length mmm = 3%nat /\
    to_timestamp 8130 false = hh ++ ":" ++ mm ++ ":" ++ ss ++ "." ++ mmm /\
    to_timestamp 8130 true = hh ++ ":" ++ mm ++ ":" ++ ss ++ "," ++ mmm.
Proof.
  split; [lia|]. split; [vm_compute; reflexivity|].
  apply (to_timestamp_separator 8130); [lia | vm_compute; reflexivity].
Defined.

(** X3. Below 100 hours [to_timestamp] loses nothing: two tick counts with
    the same text are the same tick count. *)
Theorem to_timestamp_injective (t1 t2 : Z) (comma : bool) :
  0 <= t1 -> Spec.milliseconds t1 < Spec.hundred_hours_ms ->
  0 <= t2 -> Spec.milliseconds t2 < Spec.hundred_hours_ms ->
  to_timestamp t1 comma = to_timestamp t2 comma ->
  t1 = t2.
Proof.
  intros H1 L1 H2 L2 Heq.
  rewrite !to_timestamp_in_range in Heq by assumption. cbv zeta in Heq.
  pose proof (fields_in_range t1 H1 L1) as (Bh1 & Bm1 & Bs1 & Br1 & E1).
  pose proof (fields_in_range t2 H2 L2) as (Bh2 & Bm2 & Bs2 & Br2 & E2).
  cbv zeta in *.
  assert (Hf : Spec.two_digits (t1 * 10 / 3600000) = Spec.two_digits (t2 * 10 / 3600000)
               /\ Spec.two_digits ((t1 * 10 / 60000) mod 60)
                  = Spec.two_digits ((t2 * 10 / 60000) mod 60)
               /\ Spec.two_digits ((t1 * 10 / 1000) mod 60)
                  = Spec.two_digits ((t2 * 10 / 1000) mod 60)
               /\ Spec.three_digits ((t1 * 10) mod 1000)
                  = Spec.three_digits ((t2 * 10) mod 1000)).
  { unfold Spec.two_digits, Spec.three_digits in *.
    destruct comma; cbn [append] in Heq; injection Heq; intros;
      repeat split; congruence. }
  destruct Hf as (Fh & Fm & Fs & Fr).
  assert (Eh : t1 * 10 / 3600000 = t2 * 10 / 3600000)
    by (apply two_digits_inj; [lia | lia | exact Fh]).
  assert (Em : (t1 * 10 / 60000) mod 60 = (t2 * 10 / 60000) mod 60)
    by (apply two_digits_inj; [lia | lia | exact Fm]).
  assert (Es : (t1 * 10 / 1000) mod 60 = (t2 * 10 / 1000) mod 60)
    by (apply two_digits_inj; [lia | lia | exact Fs]).
  assert (Er : (t1 * 10) mod 1000 = (t2 * 10) mod 1000)
    by (apply three_digits_inj; [lia | lia | exact Fr]).
  rewrite Eh, Em, Es, Er in E1. lia.
Qed.

Lemma to_timestamp_injective_witness :
  to_timestamp 500 false = to_timestamp (250 + 250) false /\ 500 = 250 + 250.
Proof.
  split; [vm_compute; reflexivity|].
  apply (to_timestamp_injective 500 (250 + 250) false).
  - lia.
  - vm_compute. reflexivity.
  - lia.
  - vm_compute. reflexivity.
  - vm_compute. reflexivity.
Defined.

(** X4. Below 100 hours the texts sort as the times: an earlier tick count
    gives a text that is smaller in the character order of strings, so the
    [from] and [to] columns can be compared as they are. *)
Theorem to_timestamp_order (t1 t2 : Z) (comma : bool) :
  0 <= t1 -> Spec.milliseconds t2 < Spec.hundred_hours_ms ->
  t1 < t2 ->
  String.ltb (to_timestamp t1 comma) (to_timestamp t2 comma) = true.
Proof.
  intros H1 L2 Hlt.
  assert (L1 : Spec.milliseconds t1 < Spec.hundred_hours_ms)
    by (unfold Spec.milliseconds in *; lia).
  assert (H2 : 0 <= t2) by lia.
  rewrite !to_timestamp_in_range by assumption. cbv zeta.
  pose proof (fields_in_range t1 H1 L1) as (Bh1 & Bm1 & Bs1 & Br1 & E1).
  pose proof (fields_in_range t2 H2 L2) as (Bh2 & Bm2 & Bs2 & Br2 & E2).
  cbv zeta in *.
  set (h1 := t1 * 10 / 3600000) in *. set (m1 := (t1 * 10 / 60000) mod 60) in *.
  set (s1 := (t1 * 10 / 1000) mod 60) in *. set (r1 := (t1 * 10) mod 1000) in *.
  set (h2 := t2 * 10 / 3600000) in *. set (m2 := (t2 * 10 / 60000) mod 60) in *.
  set (s2 := (t2 * 10 / 1000) mod 60) in *. set (r2 := (t2 * 10) mod 1000) in *.
  clearbody h1 m1 s1 r1 h2 m2 s2 r2.
  unfold String.ltb, Spec.two_digits, Spec.three_digits.
  cbn [append].
  destruct comma; cbn [append];
    repeat (rewrite compare_cons_same
            || rewrite compare_cons_digit by (Z.to_euclidean_division_equations; lia));
    cbn [String.compare];
    repeat match goal with
           | |- context [?a ?= ?b] => destruct (Z.compare_spec a b)
           end;
    try reflexivity; exfalso; Z.to_euclidean_division_equations; lia.
Qed.

Lemma to_timestamp_order_witness :
  String.ltb (to_timestamp 5999 false) (to_timestamp 6000 false) = true.
Proof.
  apply (to_timestamp_order 5999 6000 false).
  - lia.
  - vm_compute. reflexivity.
  - lia.
Defined.

(** ** More on the diarization heuristic *)

Section Heuristic.

Lemma in_range lo hi j : In j (range lo hi) <-> lo <= j < hi.
Proof.
  unfold range. rewrite in_map_iff. split.
  - intros (k & <- & Hk). apply in_seq in Hk. lia.
  - intros H. exists (Z.to_nat (j - lo)). split; [lia|]. apply in_seq. lia.
Qed.

(** Whatever the tick count, the index stays inside the buffer. *)
Lemma timestamp_to_sample_bounds t n :
  0 <= n <= INT_MAX -> 0 <= timestamp_to_sample t n <= Z.max 0 (n - 1).
Proof.
  unfold INT_MAX. intros Hn. unfold timestamp_to_sample.
  rewrite (int32_small n) by (unfold INT_MIN, INT_MAX; lia).
  rewrite (int32_small (n - 1)) by (unfold INT_MIN, INT_MAX; lia).
  lia.
Qed.

Lemma at_index_app_left {A} (l r : list A) (j : Z) (d : A) :
  0 <= j < Z.of_nat (List.length l) -> at_index (l ++ r) j d = at_index l j d.
Proof.
  intros H. unfold at_index. destruct (Z.ltb_spec j 0) as [Hneg|_]; [lia|].
  apply app_nth1. lia.
Qed.

Lemma loop_energy_ext c c' a b :
  (forall j, a <= j < b -> at_index c j 0%Q = at_index c' j 0%Q) ->
  loop_energy c a b = loop_energy c' a b.
Proof.
  intros H. unfold loop_energy.
  assert (G : forall l acc, (forall j, In j l -> a <= j < b) ->
            fold_left (fun e j => (e + Qabs (at_index c j 0%Q))%Q) l acc
            = fold_left (fun e j => (e + Qabs (at_index c' j 0%Q))%Q) l acc).
  { induction l as [|j l IH]; intros acc Hl; [reflexivity|].
    cbn [fold_left]. rewrite (H j) by (apply Hl; left; reflexivity).
    apply IH. intros k Hk. apply Hl. right. exact Hk. }
  apply G. intros j Hj. apply in_range, Hj.
Qed.





Lemma decide_label_equal e : (0 <= e)%Q -> Spec.decide_label e e = Spec.Ambiguous.
Proof.
  intros He. unfold Spec.decide_label.
  destruct (Qgtb e ((11 # 10) * e)%Q) eqn:G; [|reflexivity].
  apply Qgtb_true in G. exfalso. lra.
Qed.

End Heuristic.

(** X5. For two channel buffers of [n] samples each ([n] below 2^31),
    whatever the ticks of the segment, every index the energy loop reads
    lies in [[0, n-1)]: both buffers are read inside their bounds. *)
Theorem energy_loop_in_bounds (c0 c1 : list Q) (t0 t1 j : Z) :
  List.length c0 = List.length c1 ->
  Z.of_nat (List.length c0) <= INT_MAX ->
  let n_samples := Z.of_nat (List.length c0) in
  In j (range (timestamp_to_sample t0 n_samples) (timestamp_to_sample t1 n_samples)) ->
  0 <= j < n_samples - 1
  /\ (Z.to_nat j < List.length c0)%nat /\ (Z.to_nat j < List.length c1)%nat.
Proof.
  intros Hlen Hn n_samples Hin. apply in_range in Hin.
  pose proof (timestamp_to_sample_bounds t0 n_samples ltac:(unfold n_samples; lia)).
  pose proof (timestamp_to_sample_bounds t1 n_samples ltac:(unfold n_samples; lia)).
  rewrite <- Hlen. unfold n_samples in *. lia.
Qed.

Lemma energy_loop_in_bounds_witness :
  In 1 (range (timestamp_to_sample 0 3) (timestamp_to_sample 1 3)) /\
  0 <= 1 < 3 - 1.
Proof.
  assert (Hin : In 1 (range (timestamp_to_sample 0 3) (timestamp_to_sample 1 3))).
  { vm_compute. right. left. reflexivity. }
  split; [exact Hin|].
  apply (energy_loop_in_bounds Demo.loud Demo.quiet 0 1 1 eq_refl).
  - vm_compute. discriminate.
  - exact Hin.
Defined.

(** X6. The last sample of the buffers never counts: because the end index
    is clamped to [n_samples - 1] and the loop stops before it, replacing
    the last sample of either channel leaves the label of every segment
    unchanged. *)
Theorem last_sample_is_ignored params (c0 c1 : list Q) (x x' y y' : Q) (t0 t1 : Z) :
  Params.diarize params = true ->
  List.length c0 = List.length c1 ->
  Z.of_nat (List.length c0) < INT_MAX ->
  segment_speaker params [c0 ++ [x]; c1 ++ [y]]%list t0 t1
  = segment_speaker params [c0 ++ [x']; c1 ++ [y']]%list t0 t1.
Proof.
  intros Hd Hlen Hn.
  rewrite !(segment_speaker_loop params _ _ t0 t1 Hd). cbv zeta.
  rewrite !length_app. cbn [List.length].
  set (n := Z.of_nat (List.length c0 + 1)).
  pose proof (timestamp_to_sample_bounds t0 n ltac:(unfold n; lia)) as B0.
  pose proof (timestamp_to_sample_bounds t1 n ltac:(unfold n; lia)) as B1.
  assert (E0 : forall z z',
             loop_energy (c0 ++ [z]) (timestamp_to_sample t0 n) (timestamp_to_sample t1 n)
             = loop_energy (c0 ++ [z']) (timestamp_to_sample t0 n) (timestamp_to_sample t1 n)).
  { intros z z'. apply loop_energy_ext. intros j Hj.
    rewrite !at_index_app_left by (unfold n in *; lia). reflexivity. }
  assert (E1 : forall z z',
             loop_energy (c1 ++ [z]) (timestamp_to_sample t0 n) (timestamp_to_sample t1 n)
             = loop_energy (c1 ++ [z']) (timestamp_to_sample t0 n) (timestamp_to_sample t1 n)).
  { intros z z'. apply loop_energy_ext. intros j Hj.
    rewrite !at_index_app_left by (rewrite <- Hlen; unfold n in *; lia). reflexivity. }
  rewrite (E0 x x'), (E1 y y'). reflexivity.
Qed.

Lemma last_sample_is_ignored_witness :
  segment_speaker Demo.diarizing
    [[1 # 100; 0 # 1] ++ [1 # 1]; [1 # 2; 0 # 1] ++ [0 # 1]]%list 0 5
  = segment_speaker Demo.diarizing
      [[1 # 100; 0 # 1] ++ [0 # 1]; [1 # 2; 0 # 1] ++ [1 # 1]]%list 0 5.
Proof.
  apply (last_sample_is_ignored Demo.diarizing [1 # 100; 0 # 1] [1 # 2; 0 # 1]
           (1 # 1) (0 # 1) (0 # 1) (1 # 1) 0 5).
  - reflexivity.
  - reflexivity.
  - vm_compute. reflexivity.
Defined.

(** X7. Two identical channels (the same audio on both sides) never name a
    speaker: with diarization on, every segment is labelled "(speaker ?)". *)
Theorem identical_channels_are_ambiguous params (c : list Q) (t0 t1 : Z) :
  Params.diarize params = true ->
  segment_speaker params [c; c] t0 t1 = "(speaker ?)".
Proof.
  intros Hd. rewrite (segment_speaker_loop params c c t0 t1 Hd). cbv zeta.
  rewrite decide_label_equal by apply loop_energy_nonneg. reflexivity.
Qed.

Lemma identical_channels_are_ambiguous_witness :
  segment_speaker Demo.diarizing [Demo.loud; Demo.loud] 0 1 = "(speaker ?)".
Proof. apply (identical_channels_are_ambiguous Demo.diarizing Demo.loud 0 1 eq_refl). Defined.

(** X8. A segment that does not advance (its end tick not after its start
    tick, both inside the range where [t * 160] fits an [int]) is labelled
    "(speaker ?)" whatever the samples are: the loop has nothing to add. *)
Theorem empty_span_is_ambiguous params (c0 c1 : list Q) (t0 t1 : Z) :
  Params.diarize params = true ->
  Z.of_nat (List.length c0) <= INT_MAX ->
  INT_MIN <= t1 * 160 -> t1 <= t0 -> t0 * 160 <= INT_MAX ->
  segment_speaker params [c0; c1] t0 t1 = "(speaker ?)".
Proof.
  intros Hd Hn H1 Hle H0.
  rewrite (segment_speaker_loop params c0 c1 t0 t1 Hd). cbv zeta.
  set (n := Z.of_nat (List.length c0)) in *.
  rewrite !timestamp_to_sample_clamp by (unfold INT_MIN, INT_MAX in *; lia).
  assert (Hr : range (Spec.sample_index t0 n) (Spec.sample_index t1 n) = []).
  { unfold range, Spec.sample_index, Spec.clamp, WHISPER_SAMPLE_RATE.
    assert (Hq : t1 * 16000 / 100 <= t0 * 16000 / 100)
      by (apply Z.div_le_mono; lia).
    replace (Z.to_nat _) with 0%nat by lia. reflexivity. }
  unfold loop_energy. rewrite Hr. reflexivity.
Qed.

Lemma empty_span_is_ambiguous_witness :
  segment_speaker Demo.diarizing [Demo.loud; Demo.quiet] 1 1 = "(speaker ?)".
Proof.
  apply (empty_span_is_ambiguous Demo.diarizing Demo.loud Demo.quiet 1 1).
  - reflexivity.
  - vm_compute. discriminate.
  - vm_compute. discriminate.
  - lia.
  - vm_compute. discriminate.
Defined.



(** ** More on the colour index *)

Section Palette.




End Palette.

(** X10. For a probability [p] with [0 <= p < 1] the colour lookup
    succeeds: [k_colors[col]] is one of the ten palette entries. *)
Theorem palette_lookup_below_one (p : Q) :
  (0 <= p)%Q -> (p < 1)%Q ->
  exists c, k_colors_at (color_index p) = Some c /\ In c k_colors.
Proof.
  intros H0 H1. pose proof (color_index_below_one p H0 H1) as B.
  unfold k_colors_at. destruct (Z.ltb_spec (color_index p) 0) as [Hneg|_]; [lia|].
  destruct (nth_error k_colors (Z.to_nat (color_index p))) as [c|] eqn:E.
  - exists c. split; [reflexivity|]. eapply nth_error_In, E.
  - apply nth_error_None in E. change (List.length k_colors) with 10%nat in E. lia.
Qed.

Lemma palette_lookup_below_one_witness :
  exists c, k_colors_at (color_index (9 # 10)) = Some c /\ In c k_colors.
Proof.
  apply (palette_lookup_below_one (9 # 10)).
  - vm_compute. discriminate.
  - vm_compute. reflexivity.
Defined.



(** ** Reading the audio: what is accepted, and what the buffers hold *)

Section Loader.

Variable eng : engine.

Lemma Forall_firstn {A} (P : A -> Prop) (k : nat) (l : list A) :
  Forall P l -> Forall P (firstn k l).
Proof.
  revert k. induction l as [|x l IH]; intros k H.
  - destruct k; constructor.
  - destruct k as [|k]; [constructor|]. inversion H; subst.
    cbn [firstn]. constructor; [assumption | apply IH; assumption].
Qed.

Lemma at_index_Forall {A} (P : A -> Prop) (l : list A) (j : Z) (d : A) :
  Forall P l -> P d -> P (at_index l j d).
Proof.
  intros Hl Hd. unfold at_index. destruct (j <? 0); [exact Hd|].
  destruct (Nat.lt_ge_cases (Z.to_nat j) (List.length l)) as [Hlt|Hge].
  - rewrite Forall_forall in Hl. apply Hl, nth_In, Hlt.
  - rewrite nth_overflow by exact Hge. exact Hd.
Qed.

Lemma read_pcm16_int16 wav n :
  Forall is_int16 (Wav.frames wav) -> Forall is_int16 (read_pcm16 wav n).
Proof.
  intros H. unfold read_pcm16. apply Forall_firstn, Forall_app. split; [exact H|].
  apply Forall_forall. intros x Hx. apply repeat_spec in Hx. subst x.
  unfold is_int16. lia.
Qed.

Lemma length_range lo hi : List.length (range lo hi) = Z.to_nat (hi - lo).
Proof. unfold range. rewrite length_map, length_seq. reflexivity. Qed.

Lemma normalised_mono a : is_int16 a -> normalised (Qmake a 32768).
Proof. unfold is_int16, normalised, Qle, Qlt. cbn. lia. Qed.

Lemma normalised_mix a b : is_int16 a -> is_int16 b -> normalised (Qmake (a + b) 65536).
Proof. unfold is_int16, normalised, Qle, Qlt. cbn. lia. Qed.

(** What a successful load returns, spelled out. *)
Lemma load_wav_success params path pcmf32 pcmf32s :
  result_of (load_wav eng params path) = inr (pcmf32, pcmf32s) ->
  exists wav,
    drwav_init_file eng path = Some wav
    /\ (Wav.channels wav = 1 \/ Wav.channels wav = 2)
    /\ Wav.sampleRate wav = 16000 /\ Wav.bitsPerSample wav = 16
    /\ (let n := Wav.totalPCMFrameCount wav in
        let pcm16 := read_pcm16 wav n in
        pcmf32 = (if Wav.channels wav =? 1
                  then map (fun i => Qmake (at_index pcm16 i 0) 32768) (range 0 n)
                  else map (fun i => Qmake (at_index pcm16 (2 * i) 0
                                            + at_index pcm16 (2 * i + 1) 0) 65536)
                           (range 0 n))
        /\ pcmf32s = (if Params.diarize params
                      then [ map (fun i => Qmake (at_index pcm16 (2 * i) 0) 32768)
                                 (range 0 n);
                             map (fun i => Qmake (at_index pcm16 (2 * i + 1) 0) 32768)
                                 (range 0 n) ]
                      else [])).
Proof.
  unfold load_wav, WHISPER_SAMPLE_RATE.
  destruct (drwav_init_file eng path) as [wav|]; [|intros H; discriminate H].
  destruct (Z.eqb_spec (Wav.channels wav) 1) as [C1|C1];
    destruct (Z.eqb_spec (Wav.channels wav) 2) as [C2|C2];
    cbn [negb andb];
    try (intros H; discriminate H);
    (destruct (Params.diarize params && _ && _); [intros H; discriminate H|]);
    (destruct (Z.eqb_spec (Wav.sampleRate wav) 16000) as [R|R];
     cbn [negb]; [|intros H; discriminate H]);
    (destruct (Z.eqb_spec (Wav.bitsPerSample wav) 16) as [B|B];
     cbn [negb]; [|intros H; discriminate H]);
    intros H; cbn in H; injection H as <- <-;
    exists wav; repeat (split; [solve [auto]|]); cbv zeta;
    destruct (Z.eqb_spec (Wav.channels wav) 1); try contradiction;
    split; reflexivity.
Qed.

End Loader.

(** X12. With diarization off, [load_wav] returns buffers exactly when the
    file opens as a WAV with one or two channels, a rate of 16 kHz and 16
    bits per sample. *)
Theorem load_wav_accepts_exactly (eng : engine) (params : whisper_params) (path : string) :
  Params.diarize params = false ->
  (exists pcmf32 pcmf32s, result_of (load_wav eng params path) = inr (pcmf32, pcmf32s))
  <->
  (exists wav, drwav_init_file eng path = Some wav
               /\ (Wav.channels wav = 1 \/ Wav.channels wav = 2)
               /\ Wav.sampleRate wav = 16000 /\ Wav.bitsPerSample wav = 16).
Proof.
  intros Hd. split.
  - intros (pcmf32 & pcmf32s & H).
    destruct (load_wav_success eng params path pcmf32 pcmf32s H)
      as (wav & Hw & Hc & Hr & Hb & _).
    exists wav. auto.
  - intros (wav & Hw & Hc & Hr & Hb).
    unfold load_wav, WHISPER_SAMPLE_RATE. rewrite Hw, Hd, Hr, Hb.
    destruct Hc as [-> | ->]; cbn; eauto.
Qed.

Lemma load_wav_accepts_exactly_witness :
  exists pcmf32 pcmf32s,
    result_of (load_wav Demo.eng (Params.default 8) "stereo.wav") = inr (pcmf32, pcmf32s).
Proof.
  apply (proj2 (load_wav_accepts_exactly Demo.eng (Params.default 8) "stereo.wav" eq_refl)).
  exists (Demo.wav 2 16000 16 [100; 0; -200; 10; 300; 0]).
  split; [reflexivity|]. split; [right; reflexivity|]. split; reflexivity.
Defined.

(** X13. When the file delivers 16-bit samples, a successful load returns a
    mono buffer with one sample per PCM frame of the header, and every
    sample of the mono buffer and of the channel buffers lies in
    [[-1, 1)]. *)
Theorem loaded_samples_are_normalised (eng : engine) (params : whisper_params)
  (path : string) (wav : drwav) (pcmf32 : list Q) (pcmf32s : list (list Q)) :
  drwav_init_file eng path = Some wav ->
  Forall is_int16 (Wav.frames wav) ->
  result_of (load_wav eng params path) = inr (pcmf32, pcmf32s) ->
  List.length pcmf32 = Z.to_nat (Wav.totalPCMFrameCount wav)
  /\ Forall normalised pcmf32
  /\ Forall (Forall normalised) pcmf32s.
Proof.
  intros Hw Hf H.
  destruct (load_wav_success eng params path pcmf32 pcmf32s H)
    as (wav' & Hw' & _ & _ & _ & Hbuf).
  rewrite Hw in Hw'. injection Hw' as <-. cbv zeta in Hbuf.
  destruct Hbuf as [-> ->].
  pose proof (read_pcm16_int16 wav (Wav.totalPCMFrameCount wav) Hf) as H16.
  assert (Hz : is_int16 0) by (unfold is_int16; lia).
  split; [|split].
  - destruct (_ =? 1); rewrite length_map, length_range; f_equal; lia.
  - destruct (_ =? 1); apply Forall_forall; intros x Hx;
      apply in_map_iff in Hx; destruct Hx as (i & <- & _).
    + apply normalised_mono, at_index_Forall; assumption.
    + apply normalised_mix; apply at_index_Forall; assumption.
  - destruct (Params.diarize params); [|constructor].
    repeat constructor; apply Forall_forall; intros x Hx;
      apply in_map_iff in Hx; destruct Hx as (i & <- & _);
      apply normalised_mono, at_index_Forall; assumption.
Qed.

Lemma loaded_samples_are_normalised_witness :
  exists pcmf32 pcmf32s,
    result_of (load_wav Demo.eng (Params.default 8) "mono.wav") = inr (pcmf32, pcmf32s)
    /\ List.length pcmf32 = 4%nat /\ Forall normalised pcmf32.
Proof.
  assert (H : exists pcmf32 pcmf32s,
             result_of (load_wav Demo.eng (Params.default 8) "mono.wav")
             = inr (pcmf32, pcmf32s)).
  { vm_compute. do 2 eexists. reflexivity. }
  destruct H as (pcmf32 & pcmf32s & H). exists pcmf32, pcmf32s.
  split; [exact H|].
  destruct (loaded_samples_are_normalised Demo.eng (Params.default 8) "mono.wav"
              (Demo.wav 1 16000 16 [100; -200; 300; 16384]) pcmf32 pcmf32s eq_refl)
    as (Hlen & Hn & _).
  - repeat constructor; unfold is_int16; cbn; lia.
  - exact H.
  - split; [exact Hlen | exact Hn].
Defined.

(** X14. When diarization is requested and the file is stereo, a
    successful load returns exactly two channel buffers, each as long as
    the mono buffer, and every mono sample is the mean of the two channel
    samples at the same position. *)
Theorem stereo_mono_is_the_mean (eng : engine) (params : whisper_params)
  (path : string) (wav : drwav) (pcmf32 : list Q) (pcmf32s : list (list Q)) :
  Params.diarize params = true ->
  drwav_init_file eng path = Some wav ->
  Wav.channels wav = 2 ->
  result_of (load_wav eng params path) = inr (pcmf32, pcmf32s) ->
  exists c0 c1,
    pcmf32s = [c0; c1]
    /\ List.length c0 = List.length pcmf32
    /\ List.length c1 = List.length pcmf32
    /\ forall i, (i < List.length pcmf32)%nat ->
                 (nth i pcmf32 0 == (nth i c0 0 + nth i c1 0) / 2)%Q.
Proof.
  intros Hd Hw Hc H.
  destruct (load_wav_success eng params path pcmf32 pcmf32s H)
    as (wav' & Hw' & _ & _ & _ & Hbuf).
  rewrite Hw in Hw'. injection Hw' as <-. cbv zeta in Hbuf.
  rewrite Hd, Hc in Hbuf. cbn [Z.eqb Pos.eqb] in Hbuf. destruct Hbuf as [-> ->].
  set (pcm16 := read_pcm16 wav (Wav.totalPCMFrameCount wav)).
  set (l := range 0 (Wav.totalPCMFrameCount wav)).
  do 2 eexists. split; [reflexivity|].
  rewrite !length_map. split; [reflexivity|]. split; [reflexivity|].
  intros i Hi.
  set (f := fun i : Z => Qmake (at_index pcm16 (2 * i) 0 + at_index pcm16 (2 * i + 1) 0) 65536).
  set (g := fun i : Z => Qmake (at_index pcm16 (2 * i) 0) 32768).
  set (h := fun i : Z => Qmake (at_index pcm16 (2 * i + 1) 0) 32768).
  rewrite (nth_indep (map f l) 0%Q (f 0)) by (rewrite length_map; exact Hi).
  rewrite (nth_indep (map g l) 0%Q (g 0)) by (rewrite length_map; exact Hi).
  rewrite (nth_indep (map h l) 0%Q (h 0)) by (rewrite length_map; exact Hi).
  rewrite !map_nth. unfold f, g, h.
  generalize (at_index pcm16 (2 * nth i l 0) 0), (at_index pcm16 (2 * nth i l 0 + 1) 0).
  intros a b. unfold Qeq, Qdiv, Qplus, Qmult, Qinv. cbn. lia.
Qed.

Lemma stereo_mono_is_the_mean_witness :
  exists pcmf32 c0 c1,
    result_of (load_wav Demo.eng Demo.diarizing "stereo.wav") = inr (pcmf32, [c0; c1])
    /\ List.length c0 = List.length pcmf32
    /\ (nth 1 pcmf32 0 == (nth 1 c0 0 + nth 1 c1 0) / 2)%Q.
Proof.
  assert (H : exists pcmf32 pcmf32s,
             result_of (load_wav Demo.eng Demo.diarizing "stereo.wav")
             = inr (pcmf32, pcmf32s) /\ List.length pcmf32 = 3%nat).
  { vm_compute. do 2 eexists. split; reflexivity. }
  destruct H as (pcmf32 & pcmf32s & H & Hlen).
  destruct (stereo_mono_is_the_mean Demo.eng Demo.diarizing "stereo.wav"
              (Demo.wav 2 16000 16 [100; 0; -200; 10; 300; 0]) pcmf32 pcmf32s
              eq_refl eq_refl eq_refl H)
    as (c0 & c1 & -> & L0 & _ & Hmean).
  exists pcmf32, c0, c1. split; [exact H|]. split; [exact L0|].
  apply Hmean. rewrite Hlen. lia.
Defined.

(** ** How a call of [whisper_encode] ends *)

Section Outcomes.

Variable eng : engine.
Variable model : whisper_context.
Variables (path language : string).
Variables (token_timestamps translate print_special : bool).
Variables (duration offset : Z) (trace : bool) (n_threads n_processors : Z).

Let params0 : whisper_params :=
  encode_params eng path language translate print_special duration offset
                n_threads n_processors.

Let call : M (Output.t * whisper_context) :=
  whisper_encode eng model path language token_timestamps translate print_special
                 duration offset trace n_threads n_processors.

Lemma effective_n_processors :
  Params.n_processors (effective_params model params0) = n_processors.
Proof. unfold effective_params. destruct (fallback_applies _ _); reflexivity. Qed.

Lemma filter_none {A} (f : A -> bool) (l : list A) :
  (forall x, In x l -> f x = false) -> filter f l = [].
Proof.
  induction l as [|x l IH]; intros H; [reflexivity|].
  cbn [filter]. rewrite (H x) by (left; reflexivity).
  apply IH. intros y Hy. apply H. right. exact Hy.
Qed.

Lemma callback_output_no_engine wparams run :
  filter is_FullParallel (callback_output wparams run) = [].
Proof.
  apply filter_none. intros e He.
  apply callback_output_events in He. destruct He as (ud & _ & Hno & _). exact Hno.
Qed.

(** The calls of the engine a call of [whisper_encode] makes. *)
Lemma engine_calls :
  filter is_FullParallel (trace_of call)
  = match result_of (load_wav eng params0 path) with
    | inr (pcmf32, pcmf32s) =>
        if whisper_lang_id eng language =? -1 then []
        else [FullParallel
                (inference_params (whisper_full_default_params eng)
                   (effective_params model params0) pcmf32s token_timestamps trace)
                pcmf32 n_processors]
    | inl _ => []
    end.
Proof.
  pose proof (call_outcome eng model path language token_timestamps translate
                print_special duration offset trace n_threads n_processors) as H.
  cbv zeta in H. fold params0 in H. fold call in H.
  destruct H as [(e & Hcall & Hwhy) | (pcmf32 & pcmf32s & Hl & Hload & Hcall)].
  - rewrite Hcall. cbn [trace_of fst filter].
    destruct Hwhy as [[Hu _]|[_ Hf]].
    + rewrite Hu. destruct (result_of _) as [|[? ?]]; reflexivity.
    + rewrite Hf. reflexivity.
  - rewrite Hcall, Hload. apply Z.eqb_neq in Hl. rewrite Hl.
    cbn [trace_of fst]. rewrite filter_app. cbn [filter is_FullParallel].
    rewrite callback_output_no_engine, effective_n_processors.
    assert (Hw : filter is_FullParallel (fallback_warnings model params0) = []).
    { unfold fallback_warnings. destruct (fallback_applies _ _); reflexivity. }
    rewrite Hw. reflexivity.
Qed.

End Outcomes.



(** X16. A decoder that returns a non-zero code is fatal: when the language
    is known and the audio loads, and [whisper_full_parallel] returns a code
    other than 0 on the loaded buffer, the call ends with "failed to process
    audio" and returns no list, although the engine did run. *)
Theorem engine_failure_is_fatal (eng : engine) (model : whisper_context)
  (path language : string) (token_timestamps translate print_special : bool)
  (duration offset : Z) (trace : bool) (n_threads n_processors : Z)
  (pcmf32 : list Q) (pcmf32s : list (list Q)) :
  let params :=
    encode_params eng path language translate print_special duration offset
                  n_threads n_processors in
  let call :=
    whisper_encode eng model path language token_timestamps translate print_special
                   duration offset trace n_threads n_processors in
  let wparams :=
    inference_params (whisper_full_default_params eng) (effective_params model params)
                     pcmf32s token_timestamps trace in
  whisper_lang_id eng language <> -1 ->
  result_of (load_wav eng params path) = inr (pcmf32, pcmf32s) ->
  ret_code (whisper_full_parallel eng model wparams pcmf32 n_processors) <> 0 ->
  result_of call = inl (Stop "failed to process audio" [])
  /\ engine_invoked call = true.
Proof.
  intros params call wparams Hl Hload Hrc.
  assert (Hinv : engine_invoked call = true).
  { unfold engine_invoked.
    pose proof (engine_calls eng model path language token_timestamps translate
                  print_special duration offset trace n_threads n_processors) as Hc.
    fold params in Hc. fold call in Hc. rewrite Hload in Hc.
    apply Z.eqb_neq in Hl. rewrite Hl in Hc.
    destruct (existsb is_FullParallel (trace_of call)) eqn:E; [reflexivity|].
    exfalso.
    assert (Hnone : filter is_FullParallel (trace_of call) = []).
    { apply filter_none. intros e He.
      destruct (is_FullParallel e) eqn:Ee; [|reflexivity].
      assert (Ht : existsb is_FullParallel (trace_of call) = true)
        by (apply existsb_exists; exists e; split; assumption).
      congruence. }
    congruence. }
  split; [|exact Hinv].
  pose proof (call_outcome eng model path language token_timestamps translate
                print_special duration offset trace n_threads n_processors) as H.
  cbv zeta in H. fold params in H. fold call in H.
  destruct H as [(e & Hcall & Hwhy) | (pcm & pcms & _ & Hload' & Hcall)].
  - destruct Hwhy as [[Hu _]|[_ Hf]]; [contradiction | congruence].
  - rewrite Hload in Hload'. injection Hload' as <- <-.
    rewrite Hcall. cbn [result_of snd].
    pose proof (effective_n_processors eng model path language translate print_special
                  duration offset n_threads n_processors) as En.
    fold params in En. rewrite En. fold wparams. apply Z.eqb_neq in Hrc. rewrite Hrc. reflexivity.
Qed.

Lemma engine_failure_is_fatal_witness :
  result_of (whisper_encode Broken.eng Demo.english_model "mono.wav" "en" false false
               false 0 0 false 1 1)
  = inl (Stop "failed to process audio" []).
Proof.
  assert (H : exists pcmf32 pcmf32s,
             result_of (load_wav Broken.eng
                          (encode_params Broken.eng "mono.wav" "en" false false 0 0 1 1)
                          "mono.wav") = inr (pcmf32, pcmf32s)).
  { vm_compute. do 2 eexists. reflexivity. }
  destruct H as (pcmf32 & pcmf32s & H).
  apply (engine_failure_is_fatal Broken.eng Demo.english_model "mono.wav" "en" false
           false false 0 0 false 1 1 pcmf32 pcmf32s).
  - vm_compute. discriminate.
  - exact H.
  - cbn. discriminate.
Defined.

Section EngineCall.

Variable eng : engine.
Variable model : whisper_context.
Variables (path language : string).
Variables (token_timestamps translate print_special : bool).
Variables (duration offset : Z) (trace : bool) (n_threads n_processors : Z).

(** An engine call found in the trace is the one call, on the loaded mono
    buffer, with the configuration built from the effective parameters. *)
Lemma engine_call_in_trace wparams samples n :
  In (FullParallel wparams samples n)
     (trace_of (whisper_encode eng model path language token_timestamps translate
                  print_special duration offset trace n_threads n_processors)) ->
  let params :=
    encode_params eng path language translate print_special duration offset
                  n_threads n_processors in
  exists pcmf32s,
    result_of (load_wav eng params path) = inr (samples, pcmf32s)
    /\ whisper_lang_id eng language <> -1
    /\ wparams = inference_params (whisper_full_default_params eng)
                   (effective_params model params) pcmf32s token_timestamps trace
    /\ n = n_processors.
Proof.
  intros Hin params.
  assert (Hf : In (FullParallel wparams samples n)
                  (filter is_FullParallel
                     (trace_of (whisper_encode eng model path language token_timestamps
                                  translate print_special duration offset trace
                                  n_threads n_processors))))
    by (apply filter_In; split; [exact Hin | reflexivity]).
  rewrite engine_calls in Hf. fold params in Hf.
  destruct (result_of (load_wav eng params path)) as [e|[pcmf32 pcmf32s]]; [destruct Hf|].
  destruct (Z.eqb_spec (whisper_lang_id eng language) (-1)) as [Hl|Hl]; [destruct Hf|].
  destruct Hf as [Heq|[]]. injection Heq as <- <- <-.
  exists pcmf32s. auto.
Qed.

End EngineCall.

(** X17. A call returns its list exactly when the language code is known,
    the audio loads, and the decoder returns 0 on the loaded buffer. *)
Theorem call_returns_exactly (eng : engine) (model : whisper_context)
  (path language : string) (token_timestamps translate print_special : bool)
  (duration offset : Z) (trace : bool) (n_threads n_processors : Z) :
  let params :=
    encode_params eng path language translate print_special duration offset
                  n_threads n_processors in
  let call :=
    whisper_encode eng model path language token_timestamps translate print_special
                   duration offset trace n_threads n_processors in
  (exists out ctx', result_of call = inr (out, ctx'))
  <->
  (whisper_lang_id eng language <> -1
   /\ exists pcmf32 pcmf32s,
        result_of (load_wav eng params path) = inr (pcmf32, pcmf32s)
        /\ ret_code (whisper_full_parallel eng model
                       (inference_params (whisper_full_default_params eng)
                          (effective_params model params) pcmf32s
                          token_timestamps trace)
                       pcmf32 n_processors) = 0).
Proof.
  intros params call.
  pose proof (call_outcome eng model path language token_timestamps translate
                print_special duration offset trace n_threads n_processors) as H.
  cbv zeta in H. fold params in H. fold call in H.
  pose proof (effective_n_processors eng model path language translate print_special
                duration offset n_threads n_processors) as En.
  fold params in En.
  destruct H as [(e & Hcall & Hwhy) | (pcmf32 & pcmf32s & Hl & Hload & Hcall)].
  - rewrite Hcall. cbn [result_of snd]. split.
    + intros (out & ctx' & Hr). discriminate Hr.
    + intros (Hl & pcmf32 & pcmf32s & Hload & _).
      destruct Hwhy as [[Hu _]|[_ Hf]]; [contradiction | congruence].
  - rewrite Hcall. cbn [result_of snd]. rewrite En. split.
    + intros (out & ctx' & Hr). split; [exact Hl|].
      exists pcmf32, pcmf32s. split; [exact Hload|].
      destruct (Z.eqb_spec (ret_code
                  (whisper_full_parallel eng model
                     (inference_params (whisper_full_default_params eng)
                        (effective_params model params) pcmf32s token_timestamps trace)
                     pcmf32 n_processors)) 0) as [E|E];
        [exact E | discriminate Hr].
    + intros (_ & pcm & pcms & Hload' & Hrc).
      rewrite Hload in Hload'. injection Hload' as <- <-.
      rewrite Hrc. cbn [Z.eqb negb]. eauto.
Qed.

Lemma call_returns_exactly_witness :
  exists out ctx',
    result_of (whisper_encode Demo.eng Demo.english_model "mono.wav" "en" false false
                 false 0 0 false 1 1) = inr (out, ctx').
Proof.
  apply (proj2 (call_returns_exactly Demo.eng Demo.english_model "mono.wav" "en"
                  false false false 0 0 false 1 1)).
  split; [vm_compute; discriminate|].
  assert (H : exists pcmf32 pcmf32s,
             result_of (load_wav Demo.eng
                          (encode_params Demo.eng "mono.wav" "en" false false 0 0 1 1)
                          "mono.wav") = inr (pcmf32, pcmf32s)).
  { vm_compute. do 2 eexists. reflexivity. }
  destruct H as (pcmf32 & pcmf32s & H).
  exists pcmf32, pcmf32s. split; [exact H | reflexivity].
Defined.

(** X18. The decoder runs at most once per call, and exactly once when the
    language is known and the audio loads: it is then given the loaded mono
    buffer and the processor count of the caller. *)
Theorem engine_runs_once (eng : engine) (model : whisper_context)
  (path language : string) (token_timestamps translate print_special : bool)
  (duration offset : Z) (trace : bool) (n_threads n_processors : Z) :
  let params :=
    encode_params eng path language translate print_special duration offset
                  n_threads n_processors in
  let call :=
    whisper_encode eng model path language token_timestamps translate print_special
                   duration offset trace n_threads n_processors in
  (List.length (filter is_FullParallel (trace_of call)) <= 1)%nat
  /\ (forall pcmf32 pcmf32s,
         whisper_lang_id eng language <> -1 ->
         result_of (load_wav eng params path) = inr (pcmf32, pcmf32s) ->
         exists wparams,
           filter is_FullParallel (trace_of call)
           = [FullParallel wparams pcmf32 n_processors]).
Proof.
  intros params call. unfold call. rewrite engine_calls. fold params. split.
  - destruct (result_of (load_wav eng params path)) as [e|[pcmf32 pcmf32s]];
      [cbn; lia|].
    destruct (_ =? -1); cbn; lia.
  - intros pcmf32 pcmf32s Hl Hload. rewrite Hload.
    apply Z.eqb_neq in Hl. rewrite Hl. eauto.
Qed.

Lemma engine_runs_once_witness :
  exists wparams pcmf32,
    filter is_FullParallel
      (trace_of (whisper_encode Demo.eng Demo.english_model "stereo.wav" "en" false
                   false false 0 0 false 1 3))
    = [FullParallel wparams pcmf32 3].
Proof.
  assert (H : exists pcmf32 pcmf32s,
             result_of (load_wav Demo.eng
                          (encode_params Demo.eng "stereo.wav" "en" false false 0 0 1 3)
                          "stereo.wav") = inr (pcmf32, pcmf32s)).
  { vm_compute. do 2 eexists. reflexivity. }
  destruct H as (pcmf32 & pcmf32s & H).
  destruct (proj2 (engine_runs_once Demo.eng Demo.english_model "stereo.wav" "en" false
                     false false 0 0 false 1 3) pcmf32 pcmf32s) as (wparams & Hw).
  - vm_compute. discriminate.
  - exact H.
  - exists wparams, pcmf32. exact Hw.
Defined.

(** X19. The returned parameters report what the decoder ran with: for a
    call that returns, the language, translate flag, offset, duration, token
    timestamp flag and word threshold of the engine configuration are those
    of the [params] entry of the list. *)
Theorem params_report_the_engine_settings (eng : engine) (model : whisper_context)
  (path language : string) (token_timestamps translate print_special : bool)
  (duration offset : Z) (trace : bool) (n_threads n_processors : Z)
  (tr : list event) (out : Output.t) (ctx' : whisper_context)
  (wparams : whisper_full_params) (samples : list Q) (n : Z) :
  whisper_encode eng model path language token_timestamps translate print_special
                 duration offset trace n_threads n_processors
  = (tr, inr (out, ctx')) ->
  In (FullParallel wparams samples n) tr ->
  let reported := Output.params out in
  WParams.language wparams = ParamsList.language reported
  /\ WParams.translate wparams = ParamsList.translate reported
  /\ WParams.offset_ms wparams = ParamsList.offset reported
  /\ WParams.duration_ms wparams = ParamsList.duration reported
  /\ WParams.token_timestamps wparams = ParamsList.token_timestamps reported
  /\ WParams.thold_pt wparams = ParamsList.word_threshold reported
  /\ ParamsList.audio reported = path.
Proof.
  intros Hret Hin reported.
  destruct (returned_call _ _ _ _ _ _ _ _ _ _ _ _ _ _ _ Hret) as [Hout _].
  assert (Hin' : In (FullParallel wparams samples n)
                    (trace_of (whisper_encode eng model path language token_timestamps
                                 translate print_special duration offset trace
                                 n_threads n_processors)))
    by (rewrite Hret; exact Hin).
  apply engine_call_in_trace in Hin'. cbv zeta in Hin'.
  destruct Hin' as (pcmf32s & _ & _ & -> & _).
  unfold reported. rewrite Hout, assemble_params.
  unfold effective_params. destruct (fallback_applies _ _); repeat split; reflexivity.
Qed.

Lemma params_report_the_engine_settings_witness :
  exists tr out ctx' wparams samples n,
    whisper_encode Demo.eng Demo.english_model "mono.wav" "fr" true true false
                   100 200 false 2 1 = (tr, inr (out, ctx'))
    /\ In (FullParallel wparams samples n) tr
    /\ WParams.language wparams = ParamsList.language (Output.params out)
    /\ WParams.offset_ms wparams = ParamsList.offset (Output.params out).
Proof.
  assert (H : exists tr out ctx' wparams samples n,
             whisper_encode Demo.eng Demo.english_model "mono.wav" "fr" true true false
                            100 200 false 2 1 = (tr, inr (out, ctx'))
             /\ In (FullParallel wparams samples n) tr).
  { vm_compute. do 6 eexists. split; [reflexivity|]. right. right. left. reflexivity. }
  destruct H as (tr & out & ctx' & wparams & samples & n & Hret & Hin).
  exists tr, out, ctx', wparams, samples, n.
  split; [exact Hret|]. split; [exact Hin|].
  destruct (params_report_the_engine_settings Demo.eng Demo.english_model "mono.wav"
              "fr" true true false 100 200 false 2 1 tr out ctx' wparams samples n
              Hret Hin) as (Hl & _ & Ho & _).
  split; [exact Hl | exact Ho].
Defined.

(** X20. What the public entry point fixes in the engine configuration:
    the thread and processor counts are the caller's, progress printing is
    off, timestamps are on, the text context and the segment length limit
    are left at the engine default and at 0 (no limit), speed-up is off, the
    abort hook always lets the encoder run, and the segment callback is
    installed exactly when [trace] is off. *)
Theorem engine_settings_of_a_call (eng : engine) (model : whisper_context)
  (path language : string) (token_timestamps translate print_special : bool)
  (duration offset : Z) (trace : bool) (n_threads n_processors : Z)
  (wparams : whisper_full_params) (samples : list Q) (n : Z) :
  In (FullParallel wparams samples n)
     (trace_of (whisper_encode eng model path language token_timestamps translate
                  print_special duration offset trace n_threads n_processors)) ->
  n = n_processors
  /\ WParams.n_threads wparams = n_threads
  /\ WParams.print_realtime wparams = trace
  /\ WParams.print_progress wparams = false
  /\ WParams.print_timestamps wparams = true
  /\ WParams.print_special wparams = print_special
  /\ WParams.n_max_text_ctx wparams
     = Defaults.n_max_text_ctx (whisper_full_default_params eng)
  /\ WParams.max_len wparams = 0
  /\ WParams.speed_up wparams = false
  /\ (exists hook, WParams.encoder_begin_callback wparams = Some hook
                   /\ hook (WParams.encoder_begin_callback_user_data wparams) = true)
  /\ (WParams.new_segment_callback wparams = None <-> trace = true).
Proof.
  intros Hin. apply engine_call_in_trace in Hin. cbv zeta in Hin.
  destruct Hin as (pcmf32s & _ & _ & -> & ->).
  unfold effective_params. split; [reflexivity|].
  destruct (fallback_applies _ _);
    (repeat (split; [reflexivity|]));
    (split; [eexists; split; reflexivity|]);
    destruct trace; cbn; split; intros H; try reflexivity; discriminate H.
Qed.

Lemma engine_settings_of_a_call_witness :
  exists wparams samples n,
    In (FullParallel wparams samples n)
       (trace_of (whisper_encode Demo.eng Demo.multilingual_model "mono.wav" "nl" false
                    true false 0 0 true 4 2))
    /\ n = 2 /\ WParams.n_threads wparams = 4 /\ WParams.print_realtime wparams = true.
Proof.
  assert (H : exists wparams samples n,
             In (FullParallel wparams samples n)
                (trace_of (whisper_encode Demo.eng Demo.multilingual_model "mono.wav"
                             "nl" false true false 0 0 true 4 2))).
  { vm_compute. do 3 eexists. right. left. reflexivity. }
  destruct H as (wparams & samples & n & Hin).
  exists wparams, samples, n. split; [exact Hin|].
  destruct (engine_settings_of_a_call Demo.eng Demo.multilingual_model "mono.wav" "nl"
              false true false 0 0 true 4 2 wparams samples n Hin)
    as (Hn & Ht & Hr & _).
  split; [exact Hn|]. split; [exact Ht | exact Hr].
Defined.

(** X21. With [trace] on, the binding leaves the printing to the engine:
    no [Rprintf] and no interrupt check happens in the call, whatever the
    engine reports. *)
Theorem trace_silences_the_callback (eng : engine) (model : whisper_context)
  (path language : string) (token_timestamps translate print_special : bool)
  (duration offset : Z) (n_threads n_processors : Z) (e : event) :
  In e (trace_of (whisper_encode eng model path language token_timestamps translate
                    print_special duration offset true n_threads n_processors)) ->
  match e with
  | Rprintf _ _ | CheckUserInterrupt => False
  | _ => True
  end.
Proof.
  intros Hin.
  pose proof (call_outcome eng model path language token_timestamps translate
                print_special duration offset true n_threads n_processors) as H.
  cbv zeta in H.
  destruct H as [(err & Hcall & _) | (pcmf32 & pcmf32s & _ & _ & Hcall)];
    rewrite Hcall in Hin; cbn [trace_of fst] in Hin; [destruct Hin|].
  rewrite in_app_iff in Hin. destruct Hin as [Hin|[Hin|[Hin|Hin]]].
  - unfold fallback_warnings in Hin. destruct (fallback_applies _ _); [|destruct Hin].
    destruct Hin as [<-|[]]. exact I.
  - subst e. exact I.
  - subst e. exact I.
  - unfold callback_output in Hin. cbn in Hin. destruct Hin.
Qed.

Lemma trace_silences_the_callback_witness :
  In (Rcout_processing "mono.wav" 4 "en" false false)
     (trace_of (whisper_encode Demo.eng Demo.english_model "mono.wav" "en" false false
                  false 0 0 true 1 1))
  /\ True.
Proof.
  assert (Hin : In (Rcout_processing "mono.wav" 4 "en" false false)
                   (trace_of (whisper_encode Demo.eng Demo.english_model "mono.wav" "en"
                                false false false 0 0 true 1 1))).
  { vm_compute. left. reflexivity. }
  split; [exact Hin|].
  exact (trace_silences_the_callback Demo.eng Demo.english_model "mono.wav" "en" false
           false false 0 0 1 1 _ Hin).
Defined.

(** ** What the callback prints for a call of [whisper_encode] *)

Section Lines.

Lemma flat_map_singleton {A B} (g : A -> B) (l : list A) :
  flat_map (fun x => [g x]) l = map g l.
Proof. induction l as [|x l IH]; [reflexivity|]. cbn. rewrite IH. reflexivity. Qed.

(** Reading a vector from index [a] to its end. *)
Lemma range_reads_tail {A} (d : A) (l : list A) (a : Z) :
  0 <= a <= Z.of_nat (List.length l) ->
  map (fun j => at_index l j d) (range a (Z.of_nat (List.length l)))
  = skipn (Z.to_nat a) l.
Proof.
  intros Ha. unfold range. rewrite map_map.
  transitivity (firstn (Z.to_nat (Z.of_nat (List.length l) - a)) (skipn (Z.to_nat a) l)).
  - rewrite (firstn_skipn_nth d) by lia.
    apply map_ext. intros k. unfold at_index.
    destruct (Z.ltb_spec (a + Z.of_nat k) 0) as [Hneg|_]; [lia|].
    f_equal. lia.
  - apply firstn_all2. rewrite length_skipn. lia.
Qed.

End Lines.

(** X22. During a call of [whisper_encode] with [trace] off, each
    notification of [n_new] new segments (with [0 <= n_new <= n_segments])
    prints exactly the last [n_new] segments of the result set, in order,
    one line "[from --> to]  text" each with no speaker label, preceded by
    an empty line when they are the first segments of the run. *)
Theorem callback_prints_the_new_segments (eng : engine) (model : whisper_context)
  (path language : string) (translate print_special : bool)
  (duration offset n_threads n_processors : Z)
  (ctx : whisper_context) (n_new : Z) :
  let user_data :=
    {| ud_params :=
         effective_params model
           (encode_params eng path language translate print_special duration offset
                          n_threads n_processors);
       ud_pcmf32s := [] |} in
  let n_segments := whisper_full_n_segments ctx in
  n_segments <= INT_MAX ->
  0 <= n_new <= n_segments ->
  whisper_print_segment_callback ctx n_new user_data
  = ((if n_new =? n_segments then [Rprintf NL []] else [])
     ++ map segment_line (skipn (Z.to_nat (n_segments - n_new)) (Ctx.result_all ctx)))%list.
Proof.
  intros user_data n_segments Hmax Hn.
  unfold whisper_print_segment_callback. fold n_segments.
  unfold INT_MAX in Hmax.
  rewrite int32_small by (unfold INT_MIN, INT_MAX; lia).
  assert (Hflags : Params.no_timestamps (ud_params user_data) = false
                   /\ Params.print_colors (ud_params user_data) = false
                   /\ Params.diarize (ud_params user_data) = false).
  { unfold user_data, effective_params. cbn [ud_params].
    destruct (fallback_applies _ _); repeat split; reflexivity. }
  destruct Hflags as (Hts & Hcol & Hd). rewrite Hts, Hcol.
  f_equal.
  - destruct (Z.eqb_spec (n_segments - n_new) 0) as [E|E];
      destruct (Z.eqb_spec n_new n_segments) as [E'|E']; try reflexivity; lia.
  - rewrite (flat_map_singleton
               (fun i => Rprintf ("[%s --> %s]  %s%s" ++ NL)
                           [to_timestamp (whisper_full_get_segment_t0 ctx i) false;
                            to_timestamp (whisper_full_get_segment_t1 ctx i) false;
                            segment_speaker (ud_params user_data) (ud_pcmf32s user_data)
                              (whisper_full_get_segment_t0 ctx i)
                              (whisper_full_get_segment_t1 ctx i);
                            whisper_full_get_segment_text ctx i])).
    unfold n_segments, whisper_full_n_segments.
    rewrite <- (range_reads_tail Segment.none) by (unfold n_segments, whisper_full_n_segments in Hn; lia).
    rewrite map_map. apply map_ext. intros i.
    rewrite segment_speaker_off by exact Hd. reflexivity.
Qed.

Lemma callback_prints_the_new_segments_witness :
  whisper_print_segment_callback
    {| Ctx.is_multilingual := 0; Ctx.token_eot := Demo.eot; Ctx.result_all := Demo.heard |}
    1
    {| ud_params :=
         effective_params Demo.english_model
           (encode_params Demo.eng "mono.wav" "en" false false 0 0 1 1);
       ud_pcmf32s := [] |}
  = [Rprintf ("[%s --> %s]  %s%s" ++ NL) ["00:00:05.000"; "00:01:00.000"; ""; " Bye"]].
Proof.
  rewrite (callback_prints_the_new_segments Demo.eng Demo.english_model "mono.wav" "en"
             false false 0 0 1 1).
  - vm_compute. reflexivity.
  - vm_compute. discriminate.
  - vm_compute. split; discriminate.
Defined.

(** ** The two tables of the returned list *)

Section Tables.

Variable ctx : whisper_context.
Variables (print_special token_timestamps : bool).

Lemma segment_nr_loop l s :
  segment_nr (fold_left (record_segment ctx) l s)
  = (segment_nr s ++ map (fun i => i + 1) l)%list.
Proof.
  revert s. induction l as [|i l IH]; intros s; cbn [fold_left map].
  - symmetry. apply app_nil_r.
  - rewrite IH. cbn [record_segment segment_nr]. rewrite <- app_assoc. reflexivity.
Qed.

Lemma transcriptions_from_loop l s :
  transcriptions_from (fold_left (record_segment ctx) l s)
  = fold_left (fun c i => assign c (Z.to_nat i)
                            (to_timestamp (whisper_full_get_segment_t0 ctx i) false))
              l (transcriptions_from s).
Proof.
  revert s. induction l as [|i l IH]; intros s; [reflexivity|].
  cbn [fold_left]. rewrite IH. reflexivity.
Qed.

Lemma transcriptions_to_loop l s :
  transcriptions_to (fold_left (record_segment ctx) l s)
  = fold_left (fun c i => assign c (Z.to_nat i)
                            (to_timestamp (whisper_full_get_segment_t1 ctx i) false))
              l (transcriptions_to s).
Proof.
  revert s. induction l as [|i l IH]; intros s; [reflexivity|].
  cbn [fold_left]. rewrite IH. reflexivity.
Qed.

(** A column assigned entry by entry from an accessor of the segments. *)
Lemma assigned_column {A} (g : segment -> A) (d : A) :
  fold_left (fun c i => assign c (Z.to_nat i) (g (get_segment ctx i)))
            (range 0 (Z.of_nat (List.length (Ctx.result_all ctx))))
            (repeat d (List.length (Ctx.result_all ctx)))
  = map g (Ctx.result_all ctx).
Proof.
  pose proof (assign_loop (fun i => g (get_segment ctx i)) d
                (List.length (Ctx.result_all ctx)) []) as H.
  cbv zeta in H. cbn [List.length Z.of_nat Z.add app] in H. rewrite H.
  unfold get_segment.
  rewrite <- (map_map (fun i => at_index (Ctx.result_all ctx) i Segment.none) g).
  rewrite range_reads_list. reflexivity.
Qed.

Lemma segment_vectors_after_collect :
  let s := fst (collect ctx print_special token_timestamps) in
  segment_nr s = map (fun i => i + 1) (range 0 (whisper_full_n_segments ctx))
  /\ transcriptions_from s
     = map (fun seg => to_timestamp (Segment.t0 seg) false) (Ctx.result_all ctx)
  /\ transcriptions_to s
     = map (fun seg => to_timestamp (Segment.t1 seg) false) (Ctx.result_all ctx).
Proof.
  cbv zeta. unfold collect. rewrite segment_loop_segments. cbn [fst].
  rewrite segment_nr_loop, transcriptions_from_loop, transcriptions_to_loop.
  cbn [segment_nr transcriptions_from transcriptions_to app].
  unfold whisper_full_n_segments. rewrite Nat2Z.id.
  split; [reflexivity|]. split.
  - apply (assigned_column (fun seg => to_timestamp (Segment.t0 seg) false) "").
  - apply (assigned_column (fun seg => to_timestamp (Segment.t1 seg) false) "").
Qed.

Lemma assemble_data params path duration offset :
  let s := fst (collect ctx (Params.print_special params) token_timestamps) in
  Output.data (assemble ctx params path token_timestamps duration offset)
  = {| DataFrame.segment := segment_nr s;
       DataFrame.from := transcriptions_from s;
       DataFrame.to := transcriptions_to s;
       DataFrame.text := transcriptions s |}
  /\ Output.n_segments (assemble ctx params path token_timestamps duration offset)
     = whisper_full_n_segments ctx.
Proof. unfold assemble. destruct (collect _ _ _). split; reflexivity. Qed.

(** A numbered token carries the number of an existing segment. *)
Lemma numbered_tokens_range segs : forall first r,
  In r (Spec.numbered_tokens first segs) ->
  first <= fst r < first + Z.of_nat (List.length segs).
Proof.
  induction segs as [|seg segs IH]; intros first r Hin; [destruct Hin|].
  cbn [Spec.numbered_tokens] in Hin. apply in_app_iff in Hin.
  cbn [List.length]. destruct Hin as [Hin|Hin].
  - apply in_map_iff in Hin. destruct Hin as (tok & <- & _). cbn [fst]. lia.
  - apply IH in Hin. lia.
Qed.

Lemma numbered_tokens_length segs : forall first,
  List.length (Spec.numbered_tokens first segs)
  = list_sum (map (fun seg => List.length (Segment.tokens seg)) segs).
Proof.
  induction segs as [|seg segs IH]; intros first; [reflexivity|].
  cbn [Spec.numbered_tokens map list_sum]. rewrite length_app, length_map, IH.
  reflexivity.
Qed.

End Tables.

(** X23. The segment table of a returned list has one row per segment of
    the result set, in the engine's order: [n_segments] is their number,
    the [segment] column counts 1, 2, ..., and [from], [to] and [text] are
    the formatted start, the formatted end and the text of each segment. *)
Theorem segment_table_rows (eng : engine) (model : whisper_context)
  (path language : string) (token_timestamps translate print_special : bool)
  (duration offset : Z) (trace : bool) (n_threads n_processors : Z)
  (tr : list event) (out : Output.t) (ctx' : whisper_context) :
  whisper_encode eng model path language token_timestamps translate print_special
                 duration offset trace n_threads n_processors
  = (tr, inr (out, ctx')) ->
  let segs := Ctx.result_all ctx' in
  let table := Output.data out in
  Output.n_segments out = Z.of_nat (List.length segs)
  /\ DataFrame.segment table = map (fun k => Z.of_nat k + 1) (seq 0 (List.length segs))
  /\ DataFrame.from table = map (fun seg => to_timestamp (Segment.t0 seg) false) segs
  /\ DataFrame.to table = map (fun seg => to_timestamp (Segment.t1 seg) false) segs
  /\ DataFrame.text table = map Segment.text segs.
Proof.
  intros Hret segs table.
  destruct (returned_call _ _ _ _ _ _ _ _ _ _ _ _ _ _ _ Hret) as [Hout _].
  unfold table. rewrite Hout.
  set (params := effective_params model _).
  destruct (assemble_data ctx' token_timestamps params path duration offset) as [Hd Hn].
  cbv zeta in Hd. rewrite Hd, Hn. cbn [DataFrame.segment DataFrame.from DataFrame.to DataFrame.text].
  destruct (segment_vectors_after_collect ctx' (Params.print_special params) token_timestamps)
    as (Hnr & Hfrom & Hto).
  cbv zeta in Hnr, Hfrom, Hto. rewrite Hnr, Hfrom, Hto, segment_texts.
  unfold whisper_full_n_segments, range. fold segs.
  rewrite map_map, Z.sub_0_r, Nat2Z.id.
  repeat split; reflexivity.
Qed.

Lemma segment_table_rows_witness :
  exists tr out ctx',
    whisper_encode Demo.eng Demo.english_model "mono.wav" "en" false false false
                   0 0 false 1 1 = (tr, inr (out, ctx'))
    /\ DataFrame.segment (Output.data out) = [1; 2]
    /\ DataFrame.to (Output.data out) = ["00:00:05.000"; "00:01:00.000"].
Proof.
  assert (Hret : exists tr out ctx',
             whisper_encode Demo.eng Demo.english_model "mono.wav" "en" false false
                            false 0 0 false 1 1 = (tr, inr (out, ctx')) /\
             Ctx.result_all ctx' = Demo.heard).
  { vm_compute. do 3 eexists. split; reflexivity. }
  destruct Hret as (tr & out & ctx' & Hret & Hctx).
  exists tr, out, ctx'. split; [exact Hret|].
  destruct (segment_table_rows Demo.eng Demo.english_model "mono.wav" "en" false false
              false 0 0 false 1 1 tr out ctx' Hret) as (_ & Hs & _ & Hto & _).
  rewrite Hs, Hto, Hctx. split; vm_compute; reflexivity.
Defined.

(** X24. The token table of a returned list is well formed: its columns
    have the same number of rows (the timestamp columns too, when they
    exist), there are no more rows than tokens in the result set, and every
    entry of its [segment] column is the number of a row of the segment
    table, between 1 and [n_segments]. *)
Theorem token_table_is_well_formed (eng : engine) (model : whisper_context)
  (path language : string) (token_timestamps translate print_special : bool)
  (duration offset : Z) (trace : bool) (n_threads n_processors : Z)
  (tr : list event) (out : Output.t) (ctx' : whisper_context) :
  whisper_encode eng model path language token_timestamps translate print_special
                 duration offset trace n_threads n_processors
  = (tr, inr (out, ctx')) ->
  let table := Output.tokens out in
  let rows := List.length (TokensFrame.segment table) in
  List.length (TokensFrame.token table) = rows
  /\ List.length (TokensFrame.token_prob table) = rows
  /\ (forall col, TokensFrame.token_from table = Some col -> List.length col = rows)
  /\ (forall col, TokensFrame.token_to table = Some col -> List.length col = rows)
  /\ (rows <= list_sum (map (fun seg => List.length (Segment.tokens seg))
                             (Ctx.result_all ctx')))%nat
  /\ Forall (fun nr => 1 <= nr <= Output.n_segments out) (TokensFrame.segment table).
Proof.
  intros Hret table rows.
  destruct (returned_call _ _ _ _ _ _ _ _ _ _ _ _ _ _ _ Hret) as [Hout _].
  set (params := effective_params model _) in Hout.
  assert (Htable : table
                   = tokens_frame
                       (push_rows token_timestamps no_tokens
                          (Spec.rows ctx' (Params.print_special params)))
                       token_timestamps).
  { unfold table. rewrite Hout, assemble_tokens, collect_rows. reflexivity. }
  assert (Hn : Output.n_segments out = Z.of_nat (List.length (Ctx.result_all ctx'))).
  { rewrite Hout.
    destruct (assemble_data ctx' token_timestamps params path duration offset) as [_ Hn].
    rewrite Hn. reflexivity. }
  unfold rows. rewrite Htable, Hn. clear Htable Hout Hret.
  set (rs := Spec.rows ctx' (Params.print_special params)).
  assert (Hlen : (List.length rs
                  <= list_sum (map (fun seg => List.length (Segment.tokens seg))
                                   (Ctx.result_all ctx')))%nat).
  { unfold rs, Spec.rows, Spec.all_tokens.
    rewrite <- (numbered_tokens_length (Ctx.result_all ctx') 1). apply filter_length_le. }
  assert (Hnr : Forall (fun nr => 1 <= nr <= Z.of_nat (List.length (Ctx.result_all ctx')))
                       (map fst rs)).
  { apply Forall_forall. intros nr Hin. apply in_map_iff in Hin.
    destruct Hin as (r & <- & Hr). unfold rs, Spec.rows in Hr.
    apply filter_In in Hr. destruct Hr as [Hr _].
    apply numbered_tokens_range in Hr. lia. }
  destruct token_timestamps;
    cbn [tokens_frame push_rows no_tokens TokensFrame.segment TokensFrame.token
         TokensFrame.token_prob TokensFrame.token_from TokensFrame.token_to
         token_segment_nr token_segment_text token_segment_probability
         token_segment_from token_segment_to app];
    rewrite !length_map;
    (split; [reflexivity|]); (split; [reflexivity|]);
    (split; [intros col [= <-]; rewrite ?length_map; reflexivity|]);
    (split; [intros col [= <-]; rewrite ?length_map; reflexivity|]);
    (split; [exact Hlen | exact Hnr]).
Qed.

Lemma token_table_is_well_formed_witness :
  exists tr out ctx',
    whisper_encode Demo.eng Demo.english_model "mono.wav" "en" true false true
                   0 0 false 1 1 = (tr, inr (out, ctx'))
    /\ List.length (TokensFrame.token (Output.tokens out))
       = List.length (TokensFrame.segment (Output.tokens out))
    /\ Forall (fun nr => 1 <= nr <= Output.n_segments out)
              (TokensFrame.segment (Output.tokens out)).
Proof.
  assert (Hret : exists tr out ctx',
             whisper_encode Demo.eng Demo.english_model "mono.wav" "en" true false
                            true 0 0 false 1 1 = (tr, inr (out, ctx'))).
  { vm_compute. do 3 eexists. reflexivity. }
  destruct Hret as (tr & out & ctx' & Hret).
  exists tr, out, ctx'. split; [exact Hret|].
  destruct (token_table_is_well_formed Demo.eng Demo.english_model "mono.wav" "en" true
              false true 0 0 false 1 1 tr out ctx' Hret) as (H1 & _ & _ & _ & _ & H6).
  split; [exact H1 | exact H6].
Defined.

(** ** [replace_all] *)

Section ReplaceAll.

Lemma append_assoc (a b c : string) : (a ++ b) ++ c = a ++ (b ++ c).
Proof. induction a as [|x a IH]; cbn; [reflexivity | rewrite IH; reflexivity]. Qed.

Lemma append_nil_r (a : string) : a ++ "" = a.
Proof. induction a as [|x a IH]; cbn; [reflexivity | rewrite IH; reflexivity]. Qed.

Lemma substring_all (b : string) : substring 0 (String.length b) b = b.
Proof. induction b as [|x b IH]; cbn; [reflexivity | rewrite IH; reflexivity]. Qed.

Lemma substring_head (a b : string) : substring 0 (String.length a) (a ++ b) = a.
Proof.
  induction a as [|x a IH]; cbn.
  - destruct b; reflexivity.
  - rewrite IH. reflexivity.
Qed.

Lemma substring_skip (a b : string) (n m : nat) :
  substring (String.length a + n) m (a ++ b) = substring n m b.
Proof. induction a as [|x a IH]; cbn; [reflexivity | exact IH]. Qed.

Lemma erase_at (done x b : string) :
  Str.erase (done ++ x ++ b) (String.length done) (String.length x) = done ++ b.
Proof.
  unfold Str.erase. rewrite substring_head. f_equal.
  rewrite substring_skip, !length_append.
  replace (String.length done + (String.length x + String.length b)
           - (String.length done + String.length x))%nat
    with (String.length b) by lia.
  rewrite <- (Nat.add_0_r (String.length x)), substring_skip.
  apply substring_all.
Qed.

Lemma insert_at (done b r : string) :
  Str.insert (done ++ b) (String.length done) r = done ++ r ++ b.
Proof.
  unfold Str.insert. rewrite substring_head. do 2 f_equal.
  rewrite length_append.
  replace (String.length done + String.length b - String.length done)%nat
    with (String.length b) by lia.
  rewrite <- (Nat.add_0_r (String.length done)), substring_skip.
  apply substring_all.
Qed.

Lemma index_skip (search done rest : string) (n : nat) :
  String.index (String.length done + n) search (done ++ rest)
  = option_map (Nat.add (String.length done)) (String.index n search rest).
Proof.
  induction done as [|x done IH]; cbn [String.length append Nat.add].
  - destruct (String.index n search rest); reflexivity.
  - cbn [String.index]. rewrite IH.
    destruct (String.index n search rest); reflexivity.
Qed.

Lemma index_zero_cons (search : string) (c : ascii) (rest : string) :
  String.index 0 search (String c rest)
  = if prefix search (String c rest) then Some 0%nat
    else option_map S (String.index 0 search rest).
Proof.
  cbn [String.index]. destruct (prefix search (String c rest)); [reflexivity|].
  destruct (String.index 0 search rest); reflexivity.
Qed.

Lemma prefix_split (search s : string) :
  prefix search s = true -> exists b, s = search ++ b.
Proof.
  revert s. induction search as [|a search IH]; intros s H.
  - exists s. reflexivity.
  - destruct s as [|c s]; [discriminate H|]. cbn [prefix] in H.
    destruct (ascii_dec a c) as [->|]; [|discriminate H].
    destruct (IH s H) as (b & ->). exists b. reflexivity.
Qed.

Variables (search replace : string).

Lemma substitute_skip_drop (x b : string) :
  substitute_skip search replace (String.length x) (x ++ b)
  = substitute_skip search replace 0 b.
Proof.
  induction x as [|c x IH]; cbn [String.length append].
  - reflexivity.
  - cbn [substitute_skip]. exact IH.
Qed.

(** Where nothing is found, nothing changes. *)
Lemma substitute_absent (rest : string) :
  String.index 0 search rest = None -> substitute search replace rest = rest.
Proof.
  unfold substitute. induction rest as [|c rest IH]; intros H; [reflexivity|].
  rewrite index_zero_cons in H. cbn [substitute_skip].
  destruct (prefix search (String c rest)); [discriminate H|].
  destruct (String.index 0 search rest); [discriminate H|].
  rewrite IH by reflexivity. reflexivity.
Qed.

(** The first occurrence splits the text, and the substitution with it. *)
Lemma substitute_first (rest : string) : forall p,
  search <> "" ->
  String.index 0 search rest = Some p ->
  exists a b,
    rest = a ++ search ++ b /\ String.length a = p
    /\ substitute search replace rest = a ++ replace ++ substitute search replace b.
Proof.
  unfold substitute.
  induction rest as [|c rest IH]; intros p Hne H.
  - destruct search; [contradiction | discriminate H].
  - rewrite index_zero_cons in H. cbn [substitute_skip].
    destruct (prefix search (String c rest)) eqn:Hp.
    + injection H as <-. destruct (prefix_split _ _ Hp) as (b & Hb).
      exists "", b. split; [exact Hb|]. split; [reflexivity|].
      cbn [append]. f_equal.
      assert (E : exists c0 srest, search = String c0 srest)
        by (destruct search as [|c0 srest]; [contradiction | eauto]).
      destruct E as (c0 & srest & E).
      rewrite E in Hb at 1. cbn [append] in Hb. injection Hb as _ ->.
      replace (String.length search - 1)%nat with (String.length srest)
        by (rewrite E; cbn [String.length]; lia).
      apply substitute_skip_drop.
    + destruct (String.index 0 search rest) as [p'|] eqn:Hi; [|discriminate H].
      injection H as <-.
      destruct (IH p' Hne eq_refl) as (a & b & -> & <- & Hs).
      exists (String c a), b. split; [reflexivity|]. split; [reflexivity|].
      cbn [append]. rewrite Hs. reflexivity.
Qed.

(** The loop, resumed after the part already done. *)
Lemma replace_all_from_done (fuel : nat) : forall done rest,
  search <> "" ->
  (String.length rest < fuel)%nat ->
  replace_all_from fuel (done ++ rest) search replace (String.length done)
  = Some (done ++ substitute search replace rest).
Proof.
  induction fuel as [|fuel IH]; intros done rest Hne Hlen; [lia|].
  cbn [replace_all_from]. unfold Str.find.
  rewrite <- (Nat.add_0_r (String.length done)) at 1. rewrite index_skip.
  destruct (String.index 0 search rest) as [p|] eqn:Hi; cbn [option_map].
  - destruct (substitute_first rest p Hne Hi) as (a & b & -> & <- & Hs).
    rewrite Hs.
    replace (done ++ a ++ search ++ b) with ((done ++ a) ++ search ++ b)
      by (rewrite append_assoc; reflexivity).
    replace (String.length done + String.length a)%nat
      with (String.length (done ++ a)) by apply length_append.
    rewrite erase_at, insert_at.
    replace ((done ++ a) ++ replace ++ b) with ((done ++ a ++ replace) ++ b)
      by (rewrite !append_assoc; reflexivity).
    replace (String.length (done ++ a) + String.length replace)%nat
      with (String.length (done ++ a ++ replace))
      by (rewrite !length_append; lia).
    rewrite IH.
    + rewrite !append_assoc. reflexivity.
    + exact Hne.
    + rewrite !length_append in Hlen.
      destruct search; [contradiction|]. cbn [String.length] in Hlen. lia.
  - rewrite (substitute_absent rest Hi). reflexivity.
Qed.

Lemma index_empty (s : string) : forall pos,
  (pos <= String.length s)%nat -> String.index pos "" s = Some pos.
Proof.
  induction s as [|c s IH]; intros pos H.
  - cbn in H. assert (pos = 0%nat) by lia. subst pos. reflexivity.
  - destruct pos as [|pos]; [reflexivity|].
    cbn [String.index]. rewrite IH by (cbn in H; lia). reflexivity.
Qed.

Lemma split_at (s : string) : forall pos,
  (pos <= String.length s)%nat ->
  exists a b, s = a ++ b /\ String.length a = pos.
Proof.
  induction s as [|c s IH]; intros pos H.
  - exists "", "". cbn in H. split; [reflexivity | cbn; lia].
  - destruct pos as [|pos].
    + exists "", (String c s). split; reflexivity.
    + destruct (IH pos ltac:(cbn in H; lia)) as (a & b & -> & <-).
      exists (String c a), b. split; reflexivity.
Qed.

End ReplaceAll.

(** Replacing a text by itself is the identity. *)
Lemma substitute_self (search : string) (n : nat) : forall s,
  search <> "" -> (String.length s < n)%nat -> substitute search search s = s.
Proof.
  induction n as [|n IH]; intros s Hne Hlen; [lia|].
  destruct (String.index 0 search s) as [p|] eqn:Hi.
  - destruct (substitute_first search search s p Hne Hi) as (a & b & -> & _ & Hs).
    rewrite Hs, IH; [reflexivity | exact Hne |].
    rewrite !length_append in Hlen.
    destruct search; [contradiction|]. cbn [String.length] in Hlen. lia.
  - apply substitute_absent, Hi.
Qed.

(** X25. With a non-empty [search], [replace_all] ends after at most
    [length s + 1] turns of its loop, and leaves in [s] the text where every
    occurrence of [search], taken from left to right without overlap, is
    replaced by [replace]: the inserted text is not searched again. More
    fuel gives the same result. *)
Theorem replace_all_substitutes (fuel : nat) (s search replace : string) :
  search <> "" ->
  (String.length s < fuel)%nat ->
  replace_all fuel s search replace = Some (substitute search replace s).
Proof.
  intros Hne Hlen. unfold replace_all.
  exact (replace_all_from_done search replace fuel "" s Hne Hlen).
Qed.

Lemma replace_all_substitutes_witness :
  replace_all 12 "a-b-c--d" "-" "--" = Some "a--b--c----d".
Proof.
  rewrite (replace_all_substitutes 12 "a-b-c--d" "-" "--").
  - vm_compute. reflexivity.
  - discriminate.
  - cbn. lia.
Defined.

(** X26. With an empty [search] the loop of [replace_all] never ends: the
    empty string is found at every position, so whatever the number of
    turns allowed, the loop is still running. *)
Theorem replace_all_empty_search_diverges (fuel : nat) (s replace : string) :
  replace_all fuel s "" replace = None.
Proof.
  unfold replace_all.
  assert (H : forall fuel s pos, (pos <= String.length s)%nat ->
                replace_all_from fuel s "" replace pos = None).
  { clear fuel s. induction fuel as [|fuel IH]; intros s pos Hpos; [reflexivity|].
    cbn [replace_all_from]. unfold Str.find. rewrite index_empty by exact Hpos.
    destruct (split_at s pos Hpos) as (a & b & -> & <-).
    pose proof (erase_at a "" b) as He. cbn [append] in He.
    rewrite He, insert_at.
    replace (a ++ replace ++ b) with ((a ++ replace) ++ b)
      by (rewrite append_assoc; reflexivity).
    replace (String.length a + String.length replace)%nat
      with (String.length (a ++ replace)) by apply length_append.
    apply IH. rewrite !length_append. lia. }
  apply H. lia.
Qed.

(** X27. A text in which [search] does not occur is left as it is, and
    replacing a non-empty [search] by itself changes nothing. *)
Theorem replace_all_identities (s search replace : string) :
  search <> "" ->
  (String.index 0 search s = None ->
   replace_all (S (String.length s)) s search replace = Some s)
  /\ replace_all (S (String.length s)) s search search = Some s.
Proof.
  intros Hne. split.
  - intros Habs. unfold replace_all.
    rewrite (replace_all_from_done search replace _ "" s Hne) by lia.
    cbn [append]. rewrite substitute_absent by exact Habs. reflexivity.
  - unfold replace_all.
    rewrite (replace_all_from_done search search _ "" s Hne) by lia.
    cbn [append]. f_equal. apply (substitute_self search (S (String.length s))); [exact Hne | lia].
Qed.

Lemma replace_all_identities_witness :
  replace_all 6 "hello" "xyz" "!" = Some "hello"
  /\ replace_all 6 "hello" "l" "l" = Some "hello".
Proof.
  destruct (replace_all_identities "hello" "xyz" "!") as [Habs _]; [discriminate|].
  destruct (replace_all_identities "hello" "l" "l") as [_ Hself]; [discriminate|].
  split; [apply Habs; vm_compute; reflexivity | exact Hself].
Defined.
